(** * image_editor.py: the editing engine of the PyQt image editor

    A shallow embedding of [src/image_editor.py]: the editor state
    ([current_image], [undo_stack], [redo_stack], [zoom_factor], the brush and
    the [ImageLabel] gesture state), every slot of [ImageEditor], and the part
    of Pillow and Qt that the slots call.

    Conventions.
    - Python [float] values (centering offsets, scale factors, the zoom
      factor, rotation angles) are rationals [Q]. The arithmetic on them
      rounds every result with [fl], the rounding of a [Rounding]:
      [binary64] is the one of CPython, [exact] is arithmetic without
      round-off. Statements that hold whatever the rounding is take it
      as a parameter; the others are stated for [exact].
      [int(...)] on a float is truncation toward zero ([py_int]).
    - Python lists used as stacks keep Python's orientation: [append] adds at
      the end, [pop()] removes the last element, [l[-1]] reads it.
    - Every image put on a stack or taken from one goes through [Image.copy],
      so no stack entry ever aliases [current_image]; images are therefore
      plain values and the in-place drawing of [apply_drawing] is a
      replacement of [current_image].
    - A slot returns the new state together with a [Report]: the message box
      it shows, or the Python exception that leaves it. *)

From Stdlib Require Import String ZArith QArith Qround Qabs List Bool Lia.
Import ListNotations.

Open Scope Z_scope.

(** ** Python helpers *)

(** [range(n)] *)
Definition range (n : Z) : list Z := map Z.of_nat (seq 0 (Z.to_nat n)).

(** [int(q)] for a float [q]: truncation toward zero. *)
Definition py_int (q : Q) : Z := Z.quot (Qnum q) (Z.pos (Qden q)).

(** [l.pop()]: the last element and the list without it. *)
Fixpoint pop {A} (l : list A) : option (A * list A) :=
  match l with
  | [] => None
  | [x] => Some (x, [])
  | x :: l' =>
      match pop l' with
      | Some (y, r) => Some (y, x :: r)
      | None => None
      end
  end.

(** [l[-1]] *)
Definition top {A} (l : list A) : option A :=
  match pop l with
  | Some (x, _) => Some x
  | None => None
  end.

(** Python exceptions that can leave a slot. *)
Inductive Exception :=
| IndexError | AttributeError | ZeroDivisionError | TypeError | ValueError.

(** A computation that returns a value or raises. *)
Inductive result (A : Type) :=
| Ok (a : A)
| Raise (e : Exception).
Arguments Ok {A} a.
Arguments Raise {A} e.

Definition bind {A B} (r : result A) (k : A -> result B) : result B :=
  match r with
  | Ok a => k a
  | Raise e => Raise e
  end.

Notation "x <- r ;; k" := (bind r (fun x => k))
  (at level 61, r at next level, right associativity).

(** [l[i]] with Python's negative indices. *)
Definition getitem {A} (l : list A) (i : Z) : result A :=
  let n := Z.of_nat (length l) in
  let j := if i <? 0 then n + i else i in
  if (0 <=? j) && (j <? n) then
    match nth_error l (Z.to_nat j) with
    | Some a => Ok a
    | None => Raise IndexError
    end
  else Raise IndexError.

(** [l[a:b]] for [0 <= a <= b]. *)
Definition slice {A} (l : list A) (a b : nat) : list A :=
  firstn (b - a) (skipn a l).

(** [[f(i) for i in l]] where [f] may raise. *)
Fixpoint tabulate {A B} (f : A -> result B) (l : list A) : result (list B) :=
  match l with
  | [] => Ok []
  | a :: l' =>
      b <- f a ;;
      bs <- tabulate f l' ;;
      Ok (b :: bs)
  end.

(** [a < b] on floats. *)
Definition Qltb (a b : Q) : bool := negb (Qle_bool b a).

(** ** Floating point

    A Python [float] is an IEEE 754 binary64 number, and every operation on
    floats returns the exact result rounded to such a number. [fl] is that
    rounding. *)
Class Rounding := { fl : Q -> Q }.

(** Arithmetic without round-off. *)
#[global] Instance exact : Rounding := {| fl := fun q => q |}.

(** The integer nearest to [q], the even one of the two when [q] lies half
    way. *)
Definition round_half_even (q : Q) : Z :=
  let f := Qfloor q in
  match (q - inject_Z f ?= 1 # 2)%Q with
  | Lt => f
  | Gt => f + 1
  | Eq => if Z.even f then f else f + 1
  end.

(** The [e] with [2 ^ e <= q < 2 ^ (e + 1)], for [q > 0]. *)
Definition binade (q : Q) : Z :=
  let e := Z.log2 (Qnum q) - Z.log2 (Z.pos (Qden q)) in
  if Qle_bool (2 ^ e) q then e else e - 1.

(** Rounding to binary64, nearest with ties to even: 53 significant bits,
    and steps of [2 ^ -1074] below [2 ^ -1022]. Qt's sizes and coordinates
    are C ints, so no value computed by the editor comes near the largest
    binary64 number, and overflow is left out. *)
Definition round_binary64 (q : Q) : Q :=
  if Qeq_bool q 0 then 0%Q
  else
    let e := Z.max (binade (Qabs q)) (-1022) in
    let ulp := (2 ^ (e - 52))%Q in
    Qred (inject_Z (round_half_even (q / ulp)) * ulp).

(** The arithmetic of CPython. *)
Definition binary64 : Rounding := {| fl := round_binary64 |}.

Section Float.

Context {rounding : Rounding}.

(** [float(n)], also the conversion of an [int] operand that meets a
    [float] one. *)
Definition py_float (n : Z) : Q := fl (inject_Z n).

(** [a / b] on two ints. *)
Definition truediv (a b : Z) : Q := fl (inject_Z a / inject_Z b).

(** [a + b], [a - b], [a * b] and [a / b] on floats. *)
Definition fadd (a b : Q) : Q := fl (a + b).
Definition fsub (a b : Q) : Q := fl (a - b).
Definition fmul (a b : Q) : Q := fl (a * b).
Definition fdiv (a b : Q) : Q := fl (a / b).

(** [a % m] on floats with [m > 0]. The remainder of the division is
    computed without round-off; when [a] is negative and the remainder is
    not zero, it is brought into [[0, m)] by an addition of [m], which
    rounds. *)
Definition py_mod (a m : Q) : Q :=
  let r := (a - m * inject_Z (Qfloor (a / m)))%Q in
  if Qltb a 0 && negb (Qeq_bool r 0) then fl r else r.

End Float.

(** ** Pillow: images of the 8-bit modes L, RGB and RGBA

    The routines follow Pillow 9.5, of the last series that still has
    [Image.ANTIALIAS]. *)

Module PIL.

Inductive Mode := L | RGB | RGBA.

Inductive Pixel :=
| PxL (l : Z)
| PxRGB (r g b : Z)
| PxRGBA (r g b a : Z).

(** An image is stored as Pillow stores it: an array of [height] rows of
    [width] pixels, next to its mode and size. *)
Record Image := mkImage {
  mode : Mode;
  size : Z * Z;
  rows : list (list Pixel)
}.

Definition width (im : Image) : Z := fst (size im).
Definition height (im : Image) : Z := snd (size im).

Definition has_mode (m : Mode) (p : Pixel) : bool :=
  match m, p with
  | L, PxL _ | RGB, PxRGB _ _ _ | RGBA, PxRGBA _ _ _ _ => true
  | _, _ => false
  end.

Definition row_ok (m : Mode) (w : Z) (r : list Pixel) : bool :=
  (Z.of_nat (length r) =? w) && forallb (has_mode m) r.

(** The storage agrees with the declared mode and size. *)
Definition well_formed (im : Image) : bool :=
  (0 <=? width im) && (0 <=? height im)
  && (Z.of_nat (length (rows im)) =? height im)
  && forallb (row_ok (mode im) (width im)) (rows im).

(** The pixel at column [x], row [y]; [None] outside the image. *)
Definition pixel_at (im : Image) (x y : Z) : option Pixel :=
  if (0 <=? x) && (x <? width im) && (0 <=? y) && (y <? height im) then
    match nth_error (rows im) (Z.to_nat y) with
    | Some r => nth_error r (Z.to_nat x)
    | None => None
    end
  else None.

(** The all-zero pixel with which Pillow fills fresh storage. *)
Definition zero (m : Mode) : Pixel :=
  match m with
  | L => PxL 0
  | RGB => PxRGB 0 0 0
  | RGBA => PxRGBA 0 0 0 0
  end.

Definition px (im : Image) (x y : Z) : Pixel :=
  match pixel_at im x y with
  | Some p => p
  | None => zero (mode im)
  end.

(** A new [w] x [h] image whose pixel [(x, y)] is [f x y]. *)
Definition build (m : Mode) (w h : Z) (f : Z -> Z -> Pixel) : Image :=
  {| mode := m;
     size := (w, h);
     rows := map (fun y => map (fun x => f x y) (range w)) (range h) |}.

(** [Image.copy()] *)
Definition copy (im : Image) : Image := im.

(** The C routine behind [Image.crop((x0, y0, x1, y1))]: it clamps a
    negative extent to zero and leaves zero pixels where the box leaves the
    source. *)
Definition crop (im : Image) (box : Z * Z * Z * Z) : Image :=
  let '(x0, y0, x1, y1) := box in
  build (mode im) (Z.max 0 (x1 - x0)) (Z.max 0 (y1 - y0))
        (fun x y => px im (x0 + x) (y0 + y)).

(** [Image.crop((x0, y0, x1, y1))]: a box whose right edge is left of its
    left edge, or whose lower edge is above its upper edge, is refused with
    [ValueError] before the C routine is reached. *)
Definition Image_crop (im : Image) (box : Z * Z * Z * Z) : result Image :=
  let '(x0, y0, x1, y1) := box in
  if (x1 <? x0) || (y1 <? y0) then Raise ValueError else Ok (crop im box).

(** [Image.transpose(method)] *)
Inductive Transpose :=
| FLIP_LEFT_RIGHT | FLIP_TOP_BOTTOM | ROTATE_90 | ROTATE_180 | ROTATE_270.

Definition transpose (im : Image) (t : Transpose) : Image :=
  let w := width im in
  let h := height im in
  match t with
  | FLIP_LEFT_RIGHT => build (mode im) w h (fun x y => px im (w - 1 - x) y)
  | FLIP_TOP_BOTTOM => build (mode im) w h (fun x y => px im x (h - 1 - y))
  | ROTATE_90 => build (mode im) h w (fun x y => px im (w - 1 - y) x)
  | ROTATE_180 => build (mode im) w h (fun x y => px im (w - 1 - x) (h - 1 - y))
  | ROTATE_270 => build (mode im) h w (fun x y => px im y (h - 1 - x))
  end.

(** [ImageOps.mirror] and [ImageOps.flip] *)
Definition mirror (im : Image) : Image := transpose im FLIP_LEFT_RIGHT.
Definition flip (im : Image) : Image := transpose im FLIP_TOP_BOTTOM.

(** ITU-R 601-2 luma as Pillow computes it in 16-bit fixed point. *)
Definition luma (r g b : Z) : Z :=
  Z.shiftr (r * 19595 + g * 38470 + b * 7471 + 32768) 16.

Definition luminance (p : Pixel) : Z :=
  match p with
  | PxL l => l
  | PxRGB r g b => luma r g b
  | PxRGBA r g b _ => luma r g b
  end.

Definition convert_pixel (m : Mode) (p : Pixel) : Pixel :=
  match m, p with
  | L, _ => PxL (luminance p)
  | RGB, PxL l => PxRGB l l l
  | RGB, PxRGB r g b => PxRGB r g b
  | RGB, PxRGBA r g b _ => PxRGB r g b
  | RGBA, PxL l => PxRGBA l l l 255
  | RGBA, PxRGB r g b => PxRGBA r g b 255
  | RGBA, PxRGBA r g b a => PxRGBA r g b a
  end.

(** [Image.convert(mode)] *)
Definition convert (im : Image) (m : Mode) : Image :=
  {| mode := m; size := size im; rows := map (map (convert_pixel m)) (rows im) |}.

(** The alpha band of a pixel, when its mode has one. *)
Definition alpha (p : Pixel) : option Z :=
  match p with
  | PxRGBA _ _ _ a => Some a
  | _ => None
  end.

(** A value returned by the function given to [Image.point]. *)
Inductive LutValue :=
| LutInt (n : Z)
| LutTuple (t : Z * Z * Z).

Definition clip8 (n : Z) : Z := Z.max 0 (Z.min 255 n).

Definition lut_int (v : LutValue) : result Z :=
  match v with
  | LutInt n => Ok (clip8 n)
  | LutTuple _ => Raise TypeError
  end.

Definition lookup (table : list Z) (v : Z) : Z := nth (Z.to_nat v) table 0.

Definition point_pixel (table : list Z) (p : Pixel) : Pixel :=
  match p with
  | PxL l => PxL (lookup table l)
  | PxRGB r g b => PxRGB (lookup table r) (lookup table g) (lookup table b)
  | PxRGBA r g b a =>
      PxRGBA (lookup table r) (lookup table g) (lookup table b) (lookup table a)
  end.

(** [Image.point(f)] with a callable [f] on an 8-bit image: Pillow builds
    [[f(i) for i in range(256)]], so an exception of [f] leaves [point]; the
    table handed to the C layer must then hold integers. *)
Definition point (im : Image) (f : Z -> result LutValue) : result Image :=
  lut <- tabulate f (range 256) ;;
  table <- tabulate lut_int lut ;;
  Ok {| mode := mode im; size := size im;
        rows := map (map (point_pixel table)) (rows im) |}.

Inductive Enhancer := Brightness | Contrast | Color.
Inductive Kernel := BLUR | SHARPEN | FIND_EDGES.

(** The Pillow routines that resample or blend in floating point. They are
    kept abstract: the editor only passes images through them. *)
Class Primitives := {
  (** [Image.resize((w, h), Image.ANTIALIAS)] *)
  resize : Image -> Z * Z -> Image;
  (** [Image.rotate(angle, expand=True)] for an angle that is no multiple of
      a quarter turn; the angle is already reduced modulo 360 *)
  rotate_affine : Image -> Q -> Image;
  (** [ImageEnhance.X(im).enhance(factor)] *)
  enhance : Enhancer -> Image -> Q -> Image;
  (** [Image.filter(kernel)] *)
  filter : Kernel -> Image -> Image;
  (** The C rasteriser behind [ImageDraw.line]: the segments between
      consecutive points with integer coordinates, in the given colour and
      width *)
  draw_segments : Image -> list (Z * Z) -> string -> Z -> Image
}.

(** [ImageDraw.Draw(im).line(points, fill=color, width=width)]: the
    coordinates arrive as C doubles and each is cast to [int], that is
    truncated toward zero, before the segments are drawn. *)
Definition draw_line `{Primitives} (im : Image) (points : list (Q * Q))
  (color : string) (width : Z) : Image :=
  draw_segments im (map (fun '(a, b) => (py_int a, py_int b)) points)
                color width.

(** [Image.rotate(angle, expand=True)]: counter-clockwise by [angle] degrees.
    Multiples of a quarter turn take the exact transpose paths. *)
Definition rotate `{Primitives} `{Rounding} (im : Image) (angle : Q)
  : Image :=
  let a := py_mod angle 360 in
  if Qeq_bool a 0 then copy im
  else if Qeq_bool a 180 then transpose im ROTATE_180
  else if Qeq_bool a 90 then transpose im ROTATE_90
  else if Qeq_bool a 270 then transpose im ROTATE_270
  else rotate_affine im a.

(** What [convert("L")] followed by [convert("RGB")] does to one pixel. *)
Definition gray (p : Pixel) : Pixel := convert_pixel RGB (convert_pixel L p).

(** The bands of a pixel, in storage order. *)
Definition bands (p : Pixel) : list Z :=
  match p with
  | PxL l => [l]
  | PxRGB r g b => [r; g; b]
  | PxRGBA r g b a => [r; g; b; a]
  end.

(** Every band holds a value from 0 to 255. *)
Definition eight_bit (p : Pixel) : bool :=
  forallb (fun v => (0 <=? v) && (v <=? 255)) (bands p).

Definition band_count (m : Mode) : nat :=
  match m with
  | L => 1
  | RGB => 3
  | RGBA => 4
  end.

Definition pixels (im : Image) : list Pixel := concat (rows im).

(** The number of pixels whose band [k] holds [v]. *)
Definition occurrences (im : Image) (k : nat) (v : Z) : Z :=
  Z.of_nat
    (length
       (List.filter
          (fun p =>
             match nth_error (bands p) k with
             | Some u => u =? v
             | None => false
             end)
          (pixels im))).

(** [Image.tobytes("raw", mode)] for an image of that mode: the bands of
    the pixels, row after row. *)
Definition tobytes (im : Image) : list Z := flat_map bands (pixels im).

(** [Image.histogram()]: band after band, the number of pixels holding each
    of the values 0 to 255. *)
Definition histogram (im : Image) : list Z :=
  flat_map (fun k => map (occurrences im k) (range 256))
           (seq 0 (band_count (mode im))).

End PIL.

(** ** Qt: points and rectangles with integer coordinates *)

Module Qt.

Record QPoint := mkPoint { x : Z; y : Z }.

(** A [QRect] keeps its two corner points, both inside the rectangle. *)
Record QRect := mkRect { x1 : Z; y1 : Z; x2 : Z; y2 : Z }.

(** [QRect(topLeft, bottomRight)] *)
Definition rect_of_points (p q : QPoint) : QRect :=
  {| x1 := x p; y1 := y p; x2 := x q; y2 := y q |}.

Definition rect_x (r : QRect) : Z := x1 r.
Definition rect_y (r : QRect) : Z := y1 r.
Definition rect_width (r : QRect) : Z := x2 r - x1 r + 1.
Definition rect_height (r : QRect) : Z := y2 r - y1 r + 1.

(** [QRect.normalized()]: corners are swapped on an axis whose extent is
    negative. *)
Definition normalized (r : QRect) : QRect :=
  let '(a1, a2) := if x2 r <? x1 r - 1 then (x2 r, x1 r) else (x1 r, x2 r) in
  let '(b1, b2) := if y2 r <? y1 r - 1 then (y2 r, y1 r) else (y1 r, y2 r) in
  {| x1 := a1; y1 := b1; x2 := a2; y2 := b2 |}.

(** Truth value of a [QPoint] in PyQt: false exactly for the null point. *)
Definition point_bool (p : option QPoint) : bool :=
  match p with
  | Some q => negb ((x q =? 0) && (y q =? 0))
  | None => false
  end.

End Qt.

(** ** The widgets of image_editor.py *)

Module Editor.

Import PIL Qt.

(** What a slot shows or raises. *)
Inductive Report :=
| Silent
| Information (title text : string)
| Warning (title text : string)
| Critical (title text : string)
| Raised (e : Exception).

(** *** class ImageLabel *)

Record ImageLabel := mkLabel {
  cropping : bool;
  drawing : bool;
  start_point : option QPoint;
  end_point : option QPoint;
  crop_rect : option QRect;
  drawing_lines : list (list QPoint);
  current_path : list QPoint
}.

Definition new_label : ImageLabel :=
  {| cropping := false; drawing := false; start_point := None;
     end_point := None; crop_rect := None; drawing_lines := [];
     current_path := [] |}.

Definition set_cropping (b : bool) (l : ImageLabel) : ImageLabel :=
  {| cropping := b; drawing := drawing l; start_point := start_point l;
     end_point := end_point l; crop_rect := crop_rect l;
     drawing_lines := drawing_lines l; current_path := current_path l |}.

Definition set_drawing (b : bool) (l : ImageLabel) : ImageLabel :=
  {| cropping := cropping l; drawing := b; start_point := start_point l;
     end_point := end_point l; crop_rect := crop_rect l;
     drawing_lines := drawing_lines l; current_path := current_path l |}.

Definition clear_drawing_lines (l : ImageLabel) : ImageLabel :=
  {| cropping := cropping l; drawing := drawing l;
     start_point := start_point l; end_point := end_point l;
     crop_rect := crop_rect l; drawing_lines := [];
     current_path := current_path l |}.

Definition mousePressEvent (l : ImageLabel) (pos : QPoint) : ImageLabel :=
  if cropping l then
    {| cropping := cropping l; drawing := drawing l; start_point := Some pos;
       end_point := Some pos; crop_rect := crop_rect l;
       drawing_lines := drawing_lines l; current_path := current_path l |}
  else if drawing l then
    {| cropping := cropping l; drawing := drawing l;
       start_point := start_point l; end_point := end_point l;
       crop_rect := crop_rect l; drawing_lines := drawing_lines l;
       current_path := [pos] |}
  else l.

Definition nonempty {A} (l : list A) : bool :=
  match l with [] => false | _ => true end.

Definition mouseMoveEvent (l : ImageLabel) (pos : QPoint) : ImageLabel :=
  if cropping l && point_bool (start_point l) then
    {| cropping := cropping l; drawing := drawing l;
       start_point := start_point l; end_point := Some pos;
       crop_rect := crop_rect l; drawing_lines := drawing_lines l;
       current_path := current_path l |}
  else if drawing l && nonempty (current_path l) then
    {| cropping := cropping l; drawing := drawing l;
       start_point := start_point l; end_point := end_point l;
       crop_rect := crop_rect l; drawing_lines := drawing_lines l;
       current_path := current_path l ++ [pos] |}
  else l.

(** The label after a release, and the rectangle handed to [crop_callback]
    when a crop gesture ends. *)
Definition mouseReleaseEvent (l : ImageLabel) (pos : QPoint)
  : ImageLabel * option QRect :=
  if cropping l && point_bool (start_point l) then
    match start_point l with
    | Some start =>
        let rect := normalized (rect_of_points start pos) in
        ({| cropping := cropping l; drawing := drawing l; start_point := None;
            end_point := None; crop_rect := Some rect;
            drawing_lines := drawing_lines l;
            current_path := current_path l |}, Some rect)
    | None => (l, None)
    end
  else if drawing l && nonempty (current_path l) then
    let path := current_path l ++ [pos] in
    ({| cropping := cropping l; drawing := drawing l;
        start_point := start_point l; end_point := end_point l;
        crop_rect := crop_rect l;
        drawing_lines := drawing_lines l ++ [path];
        current_path := [] |}, None)
  else (l, None).

(** *** class ColorAdjustDialog *)

(** [get_values] on the three slider positions. *)
Definition get_values `{Rounding} (sliders : Z * Z * Z) : Q * Q * Q :=
  let '(b, c, s) := sliders in
  (fdiv (py_float b) 100, fdiv (py_float c) 100, fdiv (py_float s) 100).

(** *** class ImageEditor *)

Record ImageEditor := mkEditor {
  current_image : option Image;
  undo_stack : list Image;
  redo_stack : list Image;
  zoom_factor : Q;
  brush_color : string;
  brush_size : Z;
  image_label : ImageLabel
}.

(** [__init__] *)
Definition init : ImageEditor :=
  {| current_image := None; undo_stack := []; redo_stack := [];
     zoom_factor := 1; brush_color := "#0000ff"; brush_size := 3;
     image_label := new_label |}.

Definition with_image (im : Image) (s : ImageEditor) : ImageEditor :=
  {| current_image := Some im; undo_stack := undo_stack s;
     redo_stack := redo_stack s; zoom_factor := zoom_factor s;
     brush_color := brush_color s; brush_size := brush_size s;
     image_label := image_label s |}.

Definition with_label (l : ImageLabel) (s : ImageEditor) : ImageEditor :=
  {| current_image := current_image s; undo_stack := undo_stack s;
     redo_stack := redo_stack s; zoom_factor := zoom_factor s;
     brush_color := brush_color s; brush_size := brush_size s;
     image_label := l |}.

Definition with_zoom (z : Q) (s : ImageEditor) : ImageEditor :=
  {| current_image := current_image s; undo_stack := undo_stack s;
     redo_stack := redo_stack s; zoom_factor := z;
     brush_color := brush_color s; brush_size := brush_size s;
     image_label := image_label s |}.

Definition with_brush (c : string) (n : Z) (s : ImageEditor) : ImageEditor :=
  {| current_image := current_image s; undo_stack := undo_stack s;
     redo_stack := redo_stack s; zoom_factor := zoom_factor s;
     brush_color := c; brush_size := n; image_label := image_label s |}.

(** The geometry a slot reads from the label: [image_label.size()] and the
    size of [image_label.pixmap()], [None] while no pixmap is set.
    [update_display] only renders; what it leaves on screen reaches the
    slots through this record. *)
Record View := mkView {
  label_size : Z * Z;
  pixmap_size : option (Z * Z)
}.

Definition no_image : Report := Warning "Warning" "No image loaded.".

(** What the file dialog and Pillow deliver to [open_image]: no file
    chosen; an exception of [Image.open] itself, raised before anything is
    assigned; an image object [im] returned by [Image.open] whose data then
    cannot be read, so that [im.copy()] raises after [current_image] has been
    assigned; or the decoded image. Both exceptions are caught by the slot
    and shown. [update_display] is taken not to raise. The object left in
    [current_image] by an unreadable open is given the content [im] that its
    header announces; the slots below are those of images whose data can be
    read. *)
Inductive OpenResult :=
| OpenCancelled
| OpenFailed (message : string)
| Opened (im : Image)
| OpenUnreadable (im : Image) (message : string).

Definition open_image (s : ImageEditor) (r : OpenResult)
  : ImageEditor * Report :=
  match r with
  | OpenCancelled => (s, Silent)
  | OpenFailed message => (s, Critical "Error" message)
  | Opened im =>
      ({| current_image := Some im; undo_stack := [copy im];
          redo_stack := []; zoom_factor := 1;
          brush_color := brush_color s; brush_size := brush_size s;
          image_label := image_label s |}, Silent)
  | OpenUnreadable im message =>
      ({| current_image := Some im; undo_stack := undo_stack s;
          redo_stack := redo_stack s; zoom_factor := zoom_factor s;
          brush_color := brush_color s; brush_size := brush_size s;
          image_label := image_label s |}, Critical "Error" message)
  end.

Definition save_image (s : ImageEditor) : ImageEditor * Report :=
  match current_image s with
  | Some _ => (s, Silent)
  | None => (s, no_image)
  end.

Definition push_undo (s : ImageEditor) : ImageEditor :=
  match current_image s with
  | Some im =>
      {| current_image := current_image s;
         undo_stack := undo_stack s ++ [copy im];
         redo_stack := [];
         zoom_factor := zoom_factor s; brush_color := brush_color s;
         brush_size := brush_size s; image_label := image_label s |}
  | None => s
  end.

Definition crop_mode (s : ImageEditor) : ImageEditor * Report :=
  match current_image s with
  | Some _ =>
      (with_label (set_cropping true (image_label s)) s,
       Information "Crop"
         "Drag a rectangle on the image to crop, then release the mouse.")
  | None => (s, no_image)
  end.

Section Viewport.

Context {rounding : Rounding}.

(** The rectangle in pixmap coordinates, and the bounds test of
    [crop_image]. The comparisons of a float with an int are exact. *)
Definition centering_offset (label pixmap : Z) : Q :=
  truediv (label - pixmap) 2.

Definition out_of_bounds (x y : Q) (rect : QRect) (pw ph : Z) : bool :=
  Qltb x 0 || Qltb y 0
  || Qltb (inject_Z pw) (fadd x (py_float (rect_width rect)))
  || Qltb (inject_Z ph) (fadd y (py_float (rect_height rect))).

Definition crop_box (x y : Q) (rect : QRect) (scale_x scale_y : Q)
  : Z * Z * Z * Z :=
  (py_int (fmul x scale_x), py_int (fmul y scale_y),
   py_int (fmul (fadd x (py_float (rect_width rect))) scale_x),
   py_int (fmul (fadd y (py_float (rect_height rect))) scale_y)).

Definition crop_image (s : ImageEditor) (v : View) (rect : QRect)
  : ImageEditor * Report :=
  match pixmap_size v with
  | None => (s, Silent)
  | Some (pw, ph) =>
      let '(lw, lh) := label_size v in
      let offset_x := centering_offset lw pw in
      let offset_y := centering_offset lh ph in
      let x := fsub (py_float (rect_x rect)) offset_x in
      let y := fsub (py_float (rect_y rect)) offset_y in
      if out_of_bounds x y rect pw ph then
        (with_label (set_cropping false (image_label s)) s,
         Warning "Crop" "Selected area is out of image bounds.")
      else
        match current_image s with
        | None => (s, Raised AttributeError)
        | Some im =>
            let '(img_w, img_h) := size im in
            if (pw =? 0) || (ph =? 0) then (s, Raised ZeroDivisionError)
            else
              let scale_x := truediv img_w pw in
              let scale_y := truediv img_h ph in
              let box := crop_box x y rect scale_x scale_y in
              let s1 := push_undo s in
              match Image_crop im box with
              | Raise e => (s1, Raised e)
              | Ok cropped =>
                  let s2 := with_image cropped s1 in
                  (with_label (set_cropping false (image_label s2)) s2, Silent)
              end
        end
  end.

End Viewport.

Definition flip_horizontal (s : ImageEditor) : ImageEditor * Report :=
  match current_image s with
  | Some im => (with_image (mirror im) (push_undo s), Silent)
  | None => (s, no_image)
  end.

Definition flip_vertical (s : ImageEditor) : ImageEditor * Report :=
  match current_image s with
  | Some im => (with_image (flip im) (push_undo s), Silent)
  | None => (s, no_image)
  end.

(** The table built by the Sepia branch of [apply_filter]. *)
Definition sepia : list (Z * Z * Z) :=
  map (fun i => (py_int (inject_Z (i * 240) / 255)%Q,
                 py_int (inject_Z (i * 200) / 255)%Q,
                 py_int (inject_Z (i * 145) / 255)%Q))
      (range 255).

(** [lambda p: sepia[p]] *)
Definition sepia_lambda (p : Z) : result LutValue :=
  t <- getitem sepia p ;; Ok (LutTuple t).

(** [pil2pixmap] up to the conversion into a [QImage]. *)
Definition pil2pixmap (im : Image) : Image := convert im RGBA.

Section Slots.

Context {pillow : Primitives} {rounding : Rounding}.

Definition resize_image (s : ImageEditor) (new_w new_h : option positive)
  : ImageEditor * Report :=
  match current_image s with
  | Some im =>
      match new_w with
      | None => (s, Silent)
      | Some w =>
          match new_h with
          | None => (s, Silent)
          | Some h =>
              (with_image (resize im (Z.pos w, Z.pos h)) (push_undo s), Silent)
          end
      end
  | None => (s, no_image)
  end.

Definition advanced_rotate (s : ImageEditor) (angle : option Q)
  : ImageEditor * Report :=
  match current_image s with
  | Some im =>
      match angle with
      | None => (s, Silent)
      | Some a => (with_image (rotate im (- a)) (push_undo s), Silent)
      end
  | None => (s, no_image)
  end.

Definition adjust_colors (s : ImageEditor) (sliders : option (Z * Z * Z))
  : ImageEditor * Report :=
  match current_image s with
  | Some im =>
      match sliders with
      | Some v =>
          let '(brightness, contrast, saturation) := get_values v in
          let s1 := push_undo s in
          let img := enhance Brightness im brightness in
          let img := enhance Contrast img contrast in
          let img := enhance Color img saturation in
          (with_image img s1, Silent)
      | None => (s, Silent)
      end
  | None => (s, no_image)
  end.

Definition apply_filter (s : ImageEditor) (filter_name : string)
  : ImageEditor * Report :=
  match current_image s with
  | None => (s, no_image)
  | Some im =>
      let s1 := push_undo s in
      let img : result Image :=
        if (filter_name =? "Grayscale")%string then
          Ok (convert (convert im L) RGB)
        else if (filter_name =? "Sepia")%string then
          point (convert im L) sepia_lambda
        else if (filter_name =? "Blur")%string then Ok (filter BLUR im)
        else if (filter_name =? "Sharpen")%string then Ok (filter SHARPEN im)
        else if (filter_name =? "Edge Detection")%string then
          Ok (filter FIND_EDGES im)
        else Ok im in
      match img with
      | Ok img => (with_image img s1, Silent)
      | Raise e => (s1, Raised e)
      end
  end.

(** The points of one stroke as [apply_drawing] hands them to
    [ImageDraw.line]. *)
Definition convert_path (offset_x offset_y scale_x scale_y : Q)
  (path : list QPoint) : list (Q * Q) :=
  map (fun point => (fmul (fsub (py_float (x point)) offset_x) scale_x,
                     fmul (fsub (py_float (y point)) offset_y) scale_y))
      path.

Definition draw_paths (offset_x offset_y scale_x scale_y : Q)
  (color : string) (width : Z) (lines : list (list QPoint)) (im : Image)
  : Image :=
  fold_left
    (fun img path =>
       if (1 <? length path)%nat then
         draw_line img (convert_path offset_x offset_y scale_x scale_y path)
                   color width
       else img)
    lines im.

Definition apply_drawing (s : ImageEditor) (v : View)
  : ImageEditor * Report :=
  match current_image s with
  | None => (s, Silent)
  | Some im =>
      if negb (nonempty (drawing_lines (image_label s))) then (s, Silent)
      else
        match pixmap_size v with
        | None => (s, Silent)
        | Some (pw, ph) =>
            let '(lw, lh) := label_size v in
            let offset_x := centering_offset lw pw in
            let offset_y := centering_offset lh ph in
            let '(img_w, img_h) := size im in
            if (pw =? 0) || (ph =? 0) then (s, Raised ZeroDivisionError)
            else
              let scale_x := truediv img_w pw in
              let scale_y := truediv img_h ph in
              let drawn :=
                draw_paths offset_x offset_y scale_x scale_y
                           (brush_color s) (brush_size s)
                           (drawing_lines (image_label s)) im in
              let s1 := with_image drawn s in
              (with_label (clear_drawing_lines (image_label s1)) s1, Silent)
        end
  end.

Definition toggle_drawing (s : ImageEditor) (v : View)
  : ImageEditor * Report :=
  match current_image s with
  | Some _ =>
      let l := image_label s in
      let s1 := with_label (set_drawing (negb (drawing l)) l) s in
      if negb (drawing (image_label s1)) then apply_drawing s1 v
      else (s1, Silent)
  | None => (s, no_image)
  end.

End Slots.

Definition choose_brush_color (s : ImageEditor) (color : option string)
  : ImageEditor * Report :=
  match color with
  | Some c => (with_brush c (brush_size s) s, Silent)
  | None => (s, Silent)
  end.

Definition set_brush_size (s : ImageEditor) (size : option Z)
  : ImageEditor * Report :=
  match size with
  | Some n => (with_brush (brush_color s) n s, Silent)
  | None => (s, Silent)
  end.

Definition nothing_to_undo : Report :=
  Information "Undo" "No more actions to undo.".

Definition nothing_to_redo : Report :=
  Information "Redo" "No actions to redo.".

Definition undo (s : ImageEditor) : ImageEditor * Report :=
  if (1 <? length (undo_stack s))%nat then
    match pop (undo_stack s) with
    | Some (popped, rest) =>
        match top rest with
        | Some t =>
            ({| current_image := Some (copy t); undo_stack := rest;
                redo_stack := redo_stack s ++ [popped];
                zoom_factor := zoom_factor s; brush_color := brush_color s;
                brush_size := brush_size s; image_label := image_label s |},
             Silent)
        | None => (s, Raised IndexError)
        end
    | None => (s, Raised IndexError)
    end
  else (s, nothing_to_undo).

Definition redo (s : ImageEditor) : ImageEditor * Report :=
  match pop (redo_stack s) with
  | Some (popped, rest) =>
      let im := copy popped in
      ({| current_image := Some im; undo_stack := undo_stack s ++ [copy im];
          redo_stack := rest;
          zoom_factor := zoom_factor s; brush_color := brush_color s;
          brush_size := brush_size s; image_label := image_label s |},
       Silent)
  | None => (s, nothing_to_redo)
  end.

Definition zoom_in `{Rounding} (s : ImageEditor) : ImageEditor * Report :=
  (with_zoom (fmul (zoom_factor s) (5 # 4)) s, Silent).

Definition zoom_out `{Rounding} (s : ImageEditor) : ImageEditor * Report :=
  (with_zoom (fdiv (zoom_factor s) (5 # 4)) s, Silent).

Definition show_histogram (s : ImageEditor) : ImageEditor * Report :=
  match current_image s with
  | Some _ => (s, Silent)
  | None => (s, no_image)
  end.

Definition layer_support (s : ImageEditor) : ImageEditor * Report :=
  (s, Information "Layer Support"
        "Layer support is not implemented in this demo.").

(** *** The event loop: one toolbar action or pointer event at a time *)

Inductive Event :=
| EvOpen (r : OpenResult)
| EvSave
| EvCrop
| EvResize (new_w new_h : option positive)
| EvRotate (angle : option Q)
| EvFlipH
| EvFlipV
| EvAdjustColors (sliders : option (Z * Z * Z))
| EvFilter (filter_name : string)
| EvDraw (v : View)
| EvBrushColor (color : option string)
| EvBrushSize (size : option Z)
| EvUndo
| EvRedo
| EvZoomIn
| EvZoomOut
| EvHistogram
| EvLayers
| EvMousePress (pos : QPoint)
| EvMouseMove (pos : QPoint)
| EvMouseRelease (pos : QPoint) (v : View).

Section Loop.

Context {pillow : Primitives} {rounding : Rounding}.

Definition step (s : ImageEditor) (ev : Event) : ImageEditor * Report :=
  match ev with
  | EvOpen r => open_image s r
  | EvSave => save_image s
  | EvCrop => crop_mode s
  | EvResize new_w new_h => resize_image s new_w new_h
  | EvRotate angle => advanced_rotate s angle
  | EvFlipH => flip_horizontal s
  | EvFlipV => flip_vertical s
  | EvAdjustColors sliders => adjust_colors s sliders
  | EvFilter filter_name => apply_filter s filter_name
  | EvDraw v => toggle_drawing s v
  | EvBrushColor color => choose_brush_color s color
  | EvBrushSize size => set_brush_size s size
  | EvUndo => undo s
  | EvRedo => redo s
  | EvZoomIn => zoom_in s
  | EvZoomOut => zoom_out s
  | EvHistogram => show_histogram s
  | EvLayers => layer_support s
  | EvMousePress pos =>
      (with_label (mousePressEvent (image_label s) pos) s, Silent)
  | EvMouseMove pos =>
      (with_label (mouseMoveEvent (image_label s) pos) s, Silent)
  | EvMouseRelease pos v =>
      let '(l, callback) := mouseReleaseEvent (image_label s) pos in
      let s1 := with_label l s in
      match callback with
      | Some rect => crop_image s1 v rect
      | None => (s1, Silent)
      end
  end.

(** The state after a sequence of events. *)
Definition run (s : ImageEditor) (evs : list Event) : ImageEditor :=
  fold_left (fun st ev => fst (step st ev)) evs s.

(** The states the editor is in once some [open_image] has succeeded with
    [im], up to the next successful [open_image]. *)
Inductive loaded (im : Image) : ImageEditor -> Prop :=
| loaded_open s : loaded im (fst (open_image s (Opened im)))
| loaded_step s ev :
    loaded im s ->
    (forall im', ev <> EvOpen (Opened im')) ->
    loaded im (fst (step s ev)).

End Loop.

(** The four corners of [rect] in pixmap coordinates, that is after the
    centering offsets have been subtracted. *)
Definition corners (v : View) (pw ph : Z) (rect : QRect) : list (Q * Q) :=
  let '(lw, lh) := label_size v in
  let x := (inject_Z (rect_x rect) - centering_offset lw pw)%Q in
  let y := (inject_Z (rect_y rect) - centering_offset lh ph)%Q in
  let w := inject_Z (rect_width rect) in
  let h := inject_Z (rect_height rect) in
  [(x, y); (x + w, y); (x, y + h); (x + w, y + h)]%Q.

(** The mapping from the viewport to the image as the specification words
    it. A viewport point is first corrected by the centering offsets; an
    offset-corrected point is then scaled, by [source width / displayed
    width] and [source height / displayed height], and truncated toward zero
    to integer pixel indices. *)
Definition offset_corrected `{Rounding} (offset_x offset_y : Q) (p : QPoint)
  : Q * Q :=
  (fsub (py_float (x p)) offset_x, fsub (py_float (y p)) offset_y).

Definition to_image_space `{Rounding} (scale_x scale_y : Q) (c : Q * Q)
  : Z * Z :=
  (py_int (fmul (fst c) scale_x), py_int (fmul (snd c) scale_y)).

(** A point outside [[0, pw] x [0, ph]]. *)
Definition outside (pw ph : Z) (c : Q * Q) : Prop :=
  (fst c < 0 \/ inject_Z pw < fst c \/ snd c < 0 \/ inject_Z ph < snd c)%Q.

(** The byte buffer that [pil2pixmap] hands to [QImage] together with the
    width and the height of the image and the format RGBA8888. *)
Definition pil2pixmap_data (im : Image) : list Z := tobytes (pil2pixmap im).

(** The three series that [show_histogram] plots in red, green and blue. *)
Definition histogram_series (im : Image) : list Z * list Z * list Z :=
  let hist := histogram im in
  (slice hist 0 256, slice hist 256 512, slice hist 512 768).

(** The events whose slots only look at the image or change the view, the
    brush or the gesture state. *)
Definition view_only (ev : Event) : bool :=
  match ev with
  | EvOpen OpenCancelled | EvOpen (OpenFailed _) => true
  | EvSave | EvCrop | EvBrushColor _ | EvBrushSize _ | EvZoomIn | EvZoomOut
  | EvHistogram | EvLayers | EvMousePress _ | EvMouseMove _ => true
  | _ => false
  end.

(** The oldest entry of the undo stack is [im]. *)
Definition bottom_is (im : Image) (s : ImageEditor) : Prop :=
  exists rest, undo_stack s = im :: rest.

(** [undo] triggered [n] times in a row: the final state and the reports. *)
Fixpoint undo_times (n : nat) (s : ImageEditor)
  : ImageEditor * list Report :=
  match n with
  | O => (s, [])
  | S k =>
      let '(s1, r) := undo s in
      let '(s2, rs) := undo_times k s1 in
      (s2, r :: rs)
  end.

End Editor.

(** The instance used to evaluate slots on concrete inputs: resizing samples
    the nearest source pixel, the other routines return their input image.
    The statements below quantify over every instance. *)
Definition sampled : PIL.Primitives :=
  {| PIL.resize := fun im '(w, h) =>
       PIL.build (PIL.mode im) w h
         (fun x y => PIL.px im (x * PIL.width im / w) (y * PIL.height im / h));
     PIL.rotate_affine := fun im _ => im;
     PIL.enhance := fun _ im _ => im;
     PIL.filter := fun _ im => im;
     PIL.draw_segments := fun im _ _ _ => im |}.

(** ** Concrete inputs *)

Module Samples.

Import PIL Qt Editor.

(** A 2 x 1 image: a red pixel left of a blue one. *)
Definition two_pixels : Image :=
  {| mode := RGB; size := (2, 1);
     rows := [[PxRGB 255 0 0; PxRGB 0 0 255]] |}.

(** Open [two_pixels], flip it, undo, redo. *)
Definition opened : ImageEditor := fst (open_image init (Opened two_pixels)).
Definition flipped : ImageEditor := fst (flip_horizontal opened).
Definition undone : ImageEditor := fst (undo flipped).
Definition redone : ImageEditor := fst (redo undone).

(** A 1 x 1 image holding one white pixel, opened. *)
Definition white_pixel : Image :=
  {| mode := RGB; size := (1, 1); rows := [[PxRGB 255 255 255]] |}.
Definition white_opened : ImageEditor :=
  fst (open_image init (Opened white_pixel)).

(** A 100 x 100 image whose pixel [(x, y)] is [(x, y, 0)], shown unzoomed
    in a 1000 x 660 label: the pixmap is 100 x 100 and centred. *)
Definition gradient : Image := build RGB 100 100 (fun x y => PxRGB x y 0).
Definition window : View :=
  {| label_size := (1000, 660); pixmap_size := Some (100, 100) |}.

(** Open [gradient], switch drawing on, draw one stroke of three points,
    switch drawing off. *)
Definition stroke : list QPoint :=
  [mkPoint 460 290; mkPoint 470 300; mkPoint 480 290].
Definition draw_one_stroke : list Event :=
  [EvOpen (Opened gradient); EvDraw window;
   EvMousePress (mkPoint 460 290); EvMouseMove (mkPoint 470 300);
   EvMouseRelease (mkPoint 480 290) window; EvDraw window].

(** A 1 x 1 image with one half-transparent pixel, opened. *)
Definition veil : Image :=
  {| mode := RGBA; size := (1, 1); rows := [[PxRGBA 10 20 30 128]] |}.
Definition veil_opened : ImageEditor := fst (open_image init (Opened veil)).

Definition gradient_opened : ImageEditor :=
  fst (open_image init (Opened gradient)).

(** A crop gesture on [gradient]: crop mode, press at (500, 300), release
    one column to the left at (499, 350). *)
Definition crop_pressed : ImageEditor :=
  let s := fst (crop_mode gradient_opened) in
  with_label (mousePressEvent (image_label s) (mkPoint 500 300)) s.
Definition thin_rect : QRect :=
  normalized (rect_of_points (mkPoint 500 300) (mkPoint 499 350)).


(** A crop gesture that leaves the pixmap: press at (440, 300), left of the
    pixmap, which starts at column 450. *)
Definition wide_rect : QRect :=
  normalized (rect_of_points (mkPoint 440 300) (mkPoint 500 350)).

(** The label has captured [stroke] over [gradient] and drawing has just
    been switched off. *)
Definition stroke_captured : ImageEditor :=
  let l0 := set_drawing true (image_label gradient_opened) in
  let l1 := mousePressEvent l0 (mkPoint 460 290) in
  let l2 := mouseMoveEvent l1 (mkPoint 470 300) in
  let l3 := fst (mouseReleaseEvent l2 (mkPoint 480 290)) in
  with_label (set_drawing false l3) gradient_opened.

(** [gradient] shown smaller, in a pixmap of 195 x 195. *)
Definition shrunk : View :=
  {| label_size := (1000, 660); pixmap_size := Some (195, 195) |}.

(** A rectangle inside the pixmaps of [window] and [shrunk]. *)
Definition inner_rect : QRect :=
  normalized (rect_of_points (mkPoint 461 291) (mkPoint 470 300)).

(** Open [gradient], switch drawing on and draw [stroke]. *)
Definition stroke_events : list Event :=
  [EvOpen (Opened gradient); EvDraw window;
   EvMousePress (mkPoint 460 290); EvMouseMove (mkPoint 470 300);
   EvMouseRelease (mkPoint 480 290) window].

(** The crop gesture from the first to the last pixel of the unzoomed
    [gradient] in [window]: the whole image is selected. *)
Definition whole_rect : QRect :=
  normalized (rect_of_points (mkPoint 450 280) (mkPoint 549 379)).


End Samples.

(** * Properties *)

Import PIL Qt Editor.

(** ** Lists used as stacks *)

Lemma pop_app {A} (l : list A) (a : A) : pop (l ++ [a]) = Some (a, l).
Proof.
  induction l as [|b l IH]; [reflexivity|].
  change (pop ((b :: l) ++ [a])) with (pop (b :: (l ++ [a]))).
  destruct (l ++ [a]) as [|c t] eqn:E.
  - destruct l; discriminate.
  - cbn [pop]. cbn [pop] in IH. rewrite IH. reflexivity.
Qed.

Lemma pop_keeps_bottom {A} (a b : A) (l : list A) :
  exists y r, pop (a :: b :: l) = Some (y, a :: r).
Proof.
  assert (H : forall (l : list A) (b : A), exists y r, pop (b :: l) = Some (y, r)).
  { clear. induction l as [|c l IH]; intro b.
    - exists b, []. reflexivity.
    - destruct (IH c) as (y & r & E). exists y, (b :: r).
      change (pop (b :: c :: l))
        with (match pop (c :: l) with
              | Some (y, r) => Some (y, b :: r) | None => None end).
      rewrite E. reflexivity. }
  destruct (H l b) as (y & r & E). exists y, r.
  change (pop (a :: b :: l))
    with (match pop (b :: l) with
          | Some (y, r) => Some (y, a :: r) | None => None end).
  rewrite E. reflexivity.
Qed.

(** ** Pixel access *)

Lemma nth_error_range (n k : Z) :
  0 <= k < n -> nth_error (range n) (Z.to_nat k) = Some k.
Proof.
  intros H. unfold range.
  rewrite nth_error_map, nth_error_seq.
  destruct (Nat.ltb_spec (Z.to_nat k) (Z.to_nat n)); [|lia].
  cbn. f_equal. lia.
Qed.

Lemma pixel_at_build m w h f x y :
  0 <= x < w -> 0 <= y < h ->
  PIL.pixel_at (PIL.build m w h f) x y = Some (f x y).
Proof.
  intros Hx Hy. unfold PIL.pixel_at, PIL.build, PIL.width, PIL.height. cbn.
  destruct (Z.leb_spec 0 x); [|lia]. destruct (Z.ltb_spec x w); [|lia].
  destruct (Z.leb_spec 0 y); [|lia]. destruct (Z.ltb_spec y h); [|lia].
  cbn. rewrite nth_error_map, nth_error_range by lia. cbn.
  rewrite nth_error_map, nth_error_range by lia. reflexivity.
Qed.

Lemma pixel_at_defined im x y :
  well_formed im = true ->
  0 <= x < width im -> 0 <= y < height im ->
  exists p, pixel_at im x y = Some p.
Proof.
  unfold well_formed, pixel_at. rewrite !andb_true_iff.
  intros [[[_ _] Len] Rows] Hx Hy.
  apply Z.eqb_eq in Len. rewrite forallb_forall in Rows.
  destruct (Z.leb_spec 0 x); [|lia]. destruct (Z.ltb_spec x (width im)); [|lia].
  destruct (Z.leb_spec 0 y); [|lia]. destruct (Z.ltb_spec y (height im)); [|lia].
  cbn [andb].
  destruct (nth_error (rows im) (Z.to_nat y)) as [r|] eqn:R.
  - specialize (Rows r (nth_error_In _ _ R)). unfold row_ok in Rows.
    apply andb_true_iff in Rows. destruct Rows as [W _]. apply Z.eqb_eq in W.
    destruct (nth_error r (Z.to_nat x)) as [p|] eqn:E; [eauto|].
    apply nth_error_None in E. lia.
  - apply nth_error_None in R. lia.
Qed.

Lemma px_pixel_at im x y p : pixel_at im x y = Some p -> px im x y = p.
Proof. unfold px. intros ->. reflexivity. Qed.

Lemma pixel_at_convert im m x y :
  pixel_at (convert im m) x y = option_map (convert_pixel m) (pixel_at im x y).
Proof.
  unfold pixel_at, convert, width, height. cbn [size rows].
  destruct (_ && _); [|reflexivity].
  rewrite nth_error_map.
  destruct (nth_error (rows im) (Z.to_nat y)); [|reflexivity].
  cbn [option_map]. apply nth_error_map.
Qed.

(** ** Undo and redo *)

Section History.

Lemma push_undo_stack s :
  undo_stack (push_undo s)
  = match current_image s with
    | Some im => undo_stack s ++ [im]
    | None => undo_stack s
    end.
Proof. unfold push_undo. destruct (current_image s); reflexivity. Qed.

Lemma push_undo_image s : current_image (push_undo s) = current_image s.
Proof.
  unfold push_undo. destruct (current_image s) eqn:E; [reflexivity | exact E].
Qed.

(** One snapshot-then-mutate edit on a freshly opened image: [undo] brings
    back the image as opened, and so does the [redo] that follows it,
    whatever the edit produced. *)
Lemma undo_redo_after_one_edit s im post :
  let edited := with_image post (push_undo (fst (open_image s (Opened im)))) in
  current_image edited = Some post
  /\ current_image (fst (undo edited)) = Some im
  /\ current_image (fst (redo (fst (undo edited)))) = Some im.
Proof. cbn. auto. Qed.

(** The same from any state whose undo stack is not empty: after a
    snapshot-then-mutate edit, [undo] installs the entry [t] that was on top
    of the undo stack before the edit, and the following [redo] installs the
    snapshot [im] taken by the edit, never the edited image [post]. *)
Lemma undo_redo_after_snapshot s im t post :
  current_image s = Some im ->
  top (undo_stack s) = Some t ->
  let edited := with_image post (push_undo s) in
  current_image (fst (undo edited)) = Some t
  /\ redo_stack (fst (undo edited)) = [im]
  /\ current_image (fst (redo (fst (undo edited)))) = Some im.
Proof.
  intros C T edited. subst edited. unfold push_undo. rewrite C. unfold undo.
  cbn [undo_stack with_image redo_stack].
  destruct (undo_stack s) as [|b st] eqn:U; [discriminate|].
  rewrite length_app. cbn [length].
  replace (1 <? S (length st) + 1)%nat with true
    by (symmetry; apply Nat.ltb_lt; lia).
  rewrite pop_app, T. cbn [fst current_image redo_stack app].
  unfold redo. cbn [redo_stack pop fst current_image]. auto.
Qed.

(** C1 (the redo half fails on the code): on the 2 x 1 image [two_pixels],
    opened and flipped horizontally, [undo] restores the image as it was
    before the flip, but the [redo] that follows restores that same
    pre-flip image and not the flipped one. *)
Theorem C1_redo_restores_pre_edit_image :
  current_image Samples.flipped = Some (mirror Samples.two_pixels)
  /\ mirror Samples.two_pixels <> Samples.two_pixels
  /\ current_image Samples.undone = Some Samples.two_pixels
  /\ current_image Samples.redone = Some Samples.two_pixels
  /\ current_image Samples.redone <> current_image Samples.flipped.
Proof. repeat split; try reflexivity; discriminate. Qed.

Create HintDb bottom.

Lemma bottom_push_undo im s : bottom_is im s -> bottom_is im (push_undo s).
Proof.
  intros [rest E]. unfold bottom_is. rewrite push_undo_stack, E.
  destruct (current_image s); eauto. exists (rest ++ [i]). reflexivity.
Qed.

Lemma bottom_with_image im post s :
  bottom_is im s -> bottom_is im (with_image post s).
Proof. exact (fun H => H). Qed.

Lemma bottom_with_label im l s :
  bottom_is im s -> bottom_is im (with_label l s).
Proof. exact (fun H => H). Qed.

Lemma bottom_with_zoom im z s : bottom_is im s -> bottom_is im (with_zoom z s).
Proof. exact (fun H => H). Qed.

Lemma bottom_with_brush im c n s :
  bottom_is im s -> bottom_is im (with_brush c n s).
Proof. exact (fun H => H). Qed.

Lemma bottom_undo im s : bottom_is im s -> bottom_is im (fst (undo s)).
Proof.
  intros [rest E]. unfold undo. rewrite E.
  destruct rest as [|b rest]; cbn [length Nat.ltb Nat.leb fst].
  - exists []. exact E.
  - destruct (pop_keeps_bottom im b rest) as (popped & r & P). rewrite P.
    destruct (top (im :: r)); cbn [fst]; unfold bottom_is; cbn; eauto.
Qed.

Lemma bottom_redo im s : bottom_is im s -> bottom_is im (fst (redo s)).
Proof.
  intros [rest E]. unfold redo.
  destruct (pop (redo_stack s)) as [[popped r]|]; cbn [fst].
  - exists (rest ++ [copy (copy popped)]). cbn. rewrite E. reflexivity.
  - exists rest. exact E.
Qed.

#[local] Hint Resolve bottom_push_undo bottom_with_image bottom_with_label
  bottom_with_zoom bottom_with_brush bottom_undo bottom_redo : bottom.

Section Reachable.

Context {pillow : Primitives} {rounding : Rounding}.

Lemma bottom_crop_image im s v rect :
  bottom_is im s -> bottom_is im (fst (crop_image s v rect)).
Proof.
  intros B. unfold crop_image.
  destruct (pixmap_size v) as [[pw ph]|]; [|exact B].
  destruct (label_size v) as [lw lh].
  destruct (out_of_bounds _ _ _ _ _); [exact B|].
  destruct (current_image s) as [cur|] eqn:C; [|exact B].
  destruct (size cur) as [img_w img_h].
  destruct ((pw =? 0) || (ph =? 0)); [exact B|].
  destruct (Image_crop cur _); cbn [fst].
  - apply bottom_with_label, bottom_with_image, bottom_push_undo, B.
  - apply bottom_push_undo, B.
Qed.

#[local] Hint Resolve bottom_crop_image : bottom.

Lemma bottom_apply_drawing im s v :
  bottom_is im s -> bottom_is im (fst (apply_drawing s v)).
Proof.
  intros B. unfold apply_drawing.
  destruct (current_image s) as [cur|]; [|exact B].
  destruct (negb _); [exact B|].
  destruct (pixmap_size v) as [[pw ph]|]; [|exact B].
  destruct (label_size v) as [lw lh]. destruct (size cur) as [img_w img_h].
  destruct ((pw =? 0) || (ph =? 0)); [exact B|].
  cbn [fst]. auto with bottom.
Qed.

(** No event other than a successful [open_image] touches the oldest entry
    of the undo stack. *)
Lemma bottom_step im s ev :
  bottom_is im s ->
  (forall im', ev <> EvOpen (Opened im')) ->
  bottom_is im (fst (step s ev)).
Proof.
  intros B N.
  destruct ev as [r| | |new_w new_h|angle| | |sliders|filter_name|v|color
                 |bsize| | | | | | |pos|pos|pos v]; cbn [step].
  - destruct r as [|message|im'|im' message];
      [exact B | exact B | destruct (N im'); reflexivity | exact B].
  - unfold save_image. destruct (current_image s); exact B.
  - unfold crop_mode. destruct (current_image s); cbn [fst]; auto with bottom.
  - unfold resize_image.
    destruct (current_image s), new_w, new_h; cbn [fst]; auto with bottom.
  - unfold advanced_rotate.
    destruct (current_image s), angle; cbn [fst]; auto with bottom.
  - unfold flip_horizontal.
    destruct (current_image s); cbn [fst]; auto with bottom.
  - unfold flip_vertical.
    destruct (current_image s); cbn [fst]; auto with bottom.
  - unfold adjust_colors.
    destruct (current_image s); [|exact B].
    destruct sliders as [[[b c] sat]|]; cbn [fst get_values]; auto with bottom.
  - unfold apply_filter. destruct (current_image s); [|exact B].
    match goal with |- context [match ?r with Ok _ => _ | Raise _ => _ end] =>
      destruct r end; cbn [fst]; auto with bottom.
  - unfold toggle_drawing. destruct (current_image s); [|exact B].
    destruct (negb _); [apply bottom_apply_drawing|cbn [fst]]; auto with bottom.
  - unfold choose_brush_color. destruct color; cbn [fst]; auto with bottom.
  - unfold set_brush_size. destruct bsize; cbn [fst]; auto with bottom.
  - auto with bottom.
  - auto with bottom.
  - cbn. exact B.
  - cbn. exact B.
  - unfold show_histogram. destruct (current_image s); exact B.
  - exact B.
  - exact B.
  - exact B.
  - destruct (mouseReleaseEvent (image_label s) pos) as [l [rect|]];
      cbn [fst]; auto with bottom.
Qed.

Lemma loaded_bottom im s : loaded im s -> bottom_is im s.
Proof.
  induction 1 as [s | s ev _ IH N].
  - exists []. reflexivity.
  - apply bottom_step; assumption.
Qed.

(** Every state reached after a successful [open_image] is a [loaded]
    state of the image opened last. *)
Lemma run_loaded evs : forall s im,
  loaded im s -> exists im', loaded im' (run s evs).
Proof.
  induction evs as [|ev evs IH]; intros s im H; [exists im; exact H|].
  change (run s (ev :: evs)) with (run (fst (step s ev)) evs).
  assert (D : (exists im', ev = EvOpen (Opened im'))
              \/ (forall im', ev <> EvOpen (Opened im'))).
  { destruct ev as [[| |im'|]| | | | | | | | | | | | | | | | | | | |];
      try (right; discriminate). left. eauto. }
  destruct D as [[im' ->]|N].
  - apply (IH _ im'). apply loaded_open.
  - apply (IH _ im). apply loaded_step; assumption.
Qed.

Lemma undo_at_bottom s im :
  undo_stack s = [im] -> undo s = (s, nothing_to_undo).
Proof. intros E. unfold undo. rewrite E. reflexivity. Qed.

Lemma undo_times_at_bottom s im n :
  undo_stack s = [im] -> undo_times n s = (s, repeat nothing_to_undo n).
Proof.
  intros E. induction n as [|n IH]; [reflexivity|].
  cbn [undo_times repeat]. rewrite (undo_at_bottom s im E), IH. reflexivity.
Qed.

(** C5: once an image [im] has been opened, the undo stack always holds at
    least one entry and its oldest entry is the snapshot of [im]; when that
    snapshot is the only entry, [undo] reports that there is nothing to
    undo and leaves the whole state (current image, undo stack, redo stack)
    as it is, however often it is repeated. *)
Theorem C5_initial_snapshot_is_never_evicted im s :
  loaded im s ->
  (1 <= length (undo_stack s))%nat
  /\ bottom_is im s
  /\ (length (undo_stack s) = 1%nat ->
      forall n, undo_times n s = (s, repeat nothing_to_undo n)).
Proof.
  intros H. destruct (loaded_bottom im s H) as [rest E].
  split; [rewrite E; cbn; lia|].
  split; [exists rest; exact E|].
  intros Len n. rewrite E in Len. destruct rest; [|discriminate].
  exact (undo_times_at_bottom s im n E).
Qed.

(** C10: a successful [open_image] leaves the zoom factor at exactly 1,
    whatever state, and so whatever zoom factor, it starts from; in
    particular no sequence of events before the load, zooming included,
    carries a zoom factor over to the newly opened image. *)
Theorem C10_open_resets_zoom :
  (forall s im, zoom_factor (fst (open_image s (Opened im))) = 1%Q)
  /\ (forall s evs im,
        zoom_factor (run s (evs ++ [EvOpen (Opened im)])) = 1%Q).
Proof.
  split; [reflexivity|].
  intros s evs im. unfold run. rewrite fold_left_app. reflexivity.
Qed.

End Reachable.

Lemma C5_initial_snapshot_witness :
  @loaded sampled exact Samples.two_pixels Samples.undone
  /\ (1 <= length (undo_stack Samples.undone))%nat
  /\ bottom_is Samples.two_pixels Samples.undone
  /\ (length (undo_stack Samples.undone) = 1%nat ->
      forall n,
        undo_times n Samples.undone
        = (Samples.undone, repeat nothing_to_undo n)).
Proof.
  assert (H : @loaded sampled exact Samples.two_pixels Samples.undone).
  { change (@loaded sampled exact Samples.two_pixels
              (fst (@step sampled exact
                      (fst (@step sampled exact
                              (fst (open_image init
                                      (Opened Samples.two_pixels)))
                              EvFlipH))
                      EvUndo))).
    apply loaded_step; [apply loaded_step; [apply loaded_open|]|];
      discriminate. }
  split; [exact H|].
  exact (@C5_initial_snapshot_is_never_evicted sampled exact _ _ H).
Defined.

End History.

(** ** Snapshots *)

Section Snapshots.

Context {pillow : Primitives} {rounding : Rounding}.

(** Every slot that replaces the current image by an edited one takes
    exactly one snapshot first: the image as it was is appended to the undo
    stack and the redo stack is emptied. *)
Lemma edit_takes_snapshot s im :
  current_image s = Some im ->
  let snapshot s' := undo_stack s' = undo_stack s ++ [im] /\ redo_stack s' = [] in
  snapshot (fst (flip_horizontal s))
  /\ snapshot (fst (flip_vertical s))
  /\ (forall w h, snapshot (fst (resize_image s (Some w) (Some h))))
  /\ (forall a, snapshot (fst (advanced_rotate s (Some a))))
  /\ (forall v, snapshot (fst (adjust_colors s (Some v))))
  /\ (forall name, snapshot (fst (apply_filter s name))).
Proof.
  intros C snapshot. subst snapshot.
  unfold flip_horizontal, flip_vertical, resize_image, advanced_rotate,
    adjust_colors, apply_filter, push_undo.
  rewrite C. repeat first [apply conj | intro]; try reflexivity.
  all: try (destruct v as [[b c] sat]; reflexivity).
  all: match goal with |- context [match ?r with Ok _ => _ | Raise _ => _ end] =>
         destruct r end; reflexivity.
Qed.

End Snapshots.

Section DrawnStroke.

Context {pillow : Primitives}.

(** C3 (fails on the code for strokes): a stroke drawn on the freshly opened
    [gradient] is rasterised into the current image when drawing is switched
    off, yet no snapshot is taken: the undo stack still holds the single
    entry made by [open_image], and [undo] has nothing to undo. *)
Theorem C3_stroke_is_drawn_without_snapshot :
  let s := run init Samples.draw_one_stroke in
  current_image s
  = Some (draw_line Samples.gradient
            (convert_path (centering_offset 1000 100)
               (centering_offset 660 100)
               (inject_Z 100 / inject_Z 100) (inject_Z 100 / inject_Z 100)
               Samples.stroke)
            "#0000ff" 3)
  /\ undo_stack s = [Samples.gradient]
  /\ redo_stack s = []
  /\ snd (undo s) = nothing_to_undo.
Proof. repeat split. Qed.

End DrawnStroke.

(** ** Sepia *)

Section Sepia.

Context {pillow : Primitives} {rounding : Rounding}.

Lemma py_int_ratio n d :
  0 <= n -> py_int (inject_Z n / inject_Z (Z.pos d)) = n / Z.pos d.
Proof.
  intros H. unfold py_int. cbn.
  rewrite Z.mul_1_r. apply Z.quot_div_nonneg; lia.
Qed.

(** Below 255 the table holds the floors of [l * 240 / 255], [l * 200 / 255]
    and [l * 145 / 255]. *)
Lemma sepia_entry l :
  0 <= l < 255 ->
  getitem sepia l = Ok (l * 240 / 255, l * 200 / 255, l * 145 / 255).
Proof.
  intros H. unfold getitem.
  replace (Z.of_nat (length sepia)) with 255 by reflexivity.
  destruct (Z.ltb_spec l 0); [lia|].
  destruct (Z.leb_spec 0 l); [|lia]. destruct (Z.ltb_spec l 255); [|lia].
  cbn [andb]. unfold sepia.
  rewrite nth_error_map, nth_error_range by lia. cbn [option_map].
  change 255%Q with (inject_Z (Z.pos 255)).
  rewrite !py_int_ratio by lia. reflexivity.
Qed.

Lemma sepia_lambda_table : tabulate sepia_lambda (range 256) = Raise IndexError.
Proof. vm_compute. reflexivity. Qed.

(** The Sepia branch raises on every image, after the snapshot. *)
Lemma sepia_raises s im :
  current_image s = Some im ->
  apply_filter s "Sepia" = (push_undo s, Raised IndexError).
Proof.
  intros C. unfold apply_filter. rewrite C. cbn [String.eqb Ascii.eqb Bool.eqb].
  unfold point. rewrite sepia_lambda_table. reflexivity.
Qed.

(** C2 (fails on the code): the table built by the Sepia branch has 255
    entries, for luminances 0 to 254, so luminance 255 has none; on the
    white 1 x 1 image the filter raises [IndexError] after its snapshot and
    the current image stays white instead of becoming (240, 200, 145). *)
Theorem C2_sepia_table_stops_at_254 :
  length sepia = 255%nat
  /\ getitem sepia 255 = Raise IndexError
  /\ luminance (PxRGB 255 255 255) = 255
  /\ apply_filter Samples.white_opened "Sepia"
     = (push_undo Samples.white_opened, Raised IndexError)
  /\ current_image (fst (apply_filter Samples.white_opened "Sepia"))
     = Some Samples.white_pixel.
Proof.
  split; [reflexivity|]. split; [reflexivity|]. split; [reflexivity|].
  rewrite (sepia_raises _ Samples.white_pixel) by reflexivity.
  split; reflexivity.
Qed.

End Sepia.

(** ** Cropping

    The statements of this section depend on the coordinates that
    [crop_image] computes and are about arithmetic without round-off. *)

(** Under [exact] the float operations are the ones of [Q]. *)
Ltac no_round_off :=
  unfold truediv, fadd, fsub, fmul, fdiv, py_float in *;
  change (@fl exact) with (fun q : Q => q) in *;
  cbv beta in *.

Section Crop.

Lemma Qltb_true a b : Qltb a b = true <-> (a < b)%Q.
Proof.
  unfold Qltb. rewrite negb_true_iff, <- not_true_iff_false, Qle_bool_iff.
  split; [apply Qnot_le_lt | apply Qlt_not_le].
Qed.

Lemma Qltb_false a b : Qltb a b = false <-> (b <= a)%Q.
Proof.
  unfold Qltb. rewrite negb_false_iff. apply Qle_bool_iff.
Qed.

(** The bounds test of [crop_image] passes exactly when the rectangle lies
    inside the pixmap. *)
Lemma out_of_bounds_false x y rect pw ph :
  out_of_bounds x y rect pw ph = false
  <-> (0 <= x /\ 0 <= y
       /\ x + inject_Z (rect_width rect) <= inject_Z pw
       /\ y + inject_Z (rect_height rect) <= inject_Z ph)%Q.
Proof.
  unfold out_of_bounds. no_round_off.
  rewrite !orb_false_iff, !Qltb_false. tauto.
Qed.

Lemma normalized_extent start pos :
  let rect := normalized (rect_of_points start pos) in
  0 <= rect_width rect /\ 0 <= rect_height rect.
Proof.
  unfold normalized, rect_of_points, rect_width, rect_height. cbn.
  destruct (Z.ltb_spec (x pos) (x start - 1));
    destruct (Z.ltb_spec (y pos) (y start - 1)); cbn; lia.
Qed.

(** C4: a rectangle handed over by a crop gesture, one of whose four corners
    lies outside the pixmap once the centering offsets are subtracted, is
    rejected as a whole with the out-of-bounds warning; the rejection only
    switches crop mode off and leaves the current image, the undo stack and
    the redo stack as they were. *)
Theorem C4_crop_out_of_bounds_is_rejected s v start pos pw ph :
  pixmap_size v = Some (pw, ph) ->
  let rect := normalized (rect_of_points start pos) in
  Exists (outside pw ph) (corners v pw ph rect) ->
  let result := crop_image s v rect in
  snd result = Warning "Crop" "Selected area is out of image bounds."
  /\ current_image (fst result) = current_image s
  /\ undo_stack (fst result) = undo_stack s
  /\ redo_stack (fst result) = redo_stack s.
Proof.
  intros P rect E result. subst result. unfold crop_image. rewrite P.
  no_round_off.
  unfold corners in E. destruct (label_size v) as [lw lh].
  destruct (normalized_extent start pos) as [W H]. fold rect in W, H.
  rewrite Zle_Qle in W, H.
  set (cx := (inject_Z (rect_x rect) - centering_offset lw pw)%Q) in *.
  set (cy := (inject_Z (rect_y rect) - centering_offset lh ph)%Q) in *.
  destruct (out_of_bounds cx cy rect pw ph) eqn:B; [cbn; auto|].
  exfalso. apply out_of_bounds_false in B. destruct B as (X & Y & XW & YH).
  assert (XW' : (cx <= cx + inject_Z (rect_width rect))%Q).
  { rewrite <- (Qplus_0_r cx) at 1. apply Qplus_le_r. exact W. }
  assert (YH' : (cy <= cy + inject_Z (rect_height rect))%Q).
  { rewrite <- (Qplus_0_r cy) at 1. apply Qplus_le_r. exact H. }
  assert (F : forall a b : Q, (a <= b)%Q -> (b < a)%Q -> False).
  { intros a b L G. exact (Qlt_not_le _ _ G L). }
  repeat match goal with
         | E : Exists _ _ |- _ => inversion E; subst; clear E
         | O : outside _ _ _ |- _ => unfold outside in O; cbn in O
         | O : _ \/ _ |- _ => destruct O
         end;
    eauto using Qle_trans.
Qed.

Lemma C4_crop_out_of_bounds_witness :
  pixmap_size Samples.window = Some (100, 100)
  /\ Exists (outside 100 100)
       (corners Samples.window 100 100 Samples.wide_rect)
  /\ snd (crop_image Samples.crop_pressed Samples.window Samples.wide_rect)
     = Warning "Crop" "Selected area is out of image bounds."
  /\ current_image
       (fst (crop_image Samples.crop_pressed Samples.window Samples.wide_rect))
     = current_image Samples.crop_pressed
  /\ undo_stack
       (fst (crop_image Samples.crop_pressed Samples.window Samples.wide_rect))
     = undo_stack Samples.crop_pressed
  /\ redo_stack
       (fst (crop_image Samples.crop_pressed Samples.window Samples.wide_rect))
     = redo_stack Samples.crop_pressed.
Proof.
  assert (E : Exists (outside 100 100)
                (corners Samples.window 100 100 Samples.wide_rect)).
  { apply Exists_cons_hd. left. reflexivity. }
  split; [reflexivity|]. split; [exact E|].
  exact (C4_crop_out_of_bounds_is_rejected Samples.crop_pressed Samples.window
           (mkPoint 440 300) (mkPoint 500 350) 100 100 eq_refl E).
Defined.

(** [int] on a float truncates toward zero: it is the floor of a
    non-negative number and the ceiling of a non-positive one. *)
Lemma py_int_floor q : (0 <= q)%Q -> py_int q = Qfloor q.
Proof.
  destruct q as [n d]. unfold Qle, py_int, Qfloor. cbn. intros H.
  apply Z.quot_div_nonneg; lia.
Qed.

Lemma py_int_ceiling q : (q <= 0)%Q -> py_int q = Qceiling q.
Proof.
  destruct q as [n d]. unfold Qle, py_int, Qceiling, Qfloor. cbn. intros H.
  rewrite <- (Z.opp_involutive n) at 1.
  rewrite Z.quot_opp_l by lia. f_equal. apply Z.quot_div_nonneg; lia.
Qed.

Lemma py_int_mono a b : (0 <= a)%Q -> (a <= b)%Q -> py_int a <= py_int b.
Proof.
  intros A AB. rewrite !py_int_floor by eauto using Qle_trans.
  apply Qfloor_resp_le, AB.
Qed.


Lemma inject_Z_pos n : 0 < n -> (0 < inject_Z n)%Q.
Proof. intros H. unfold Qlt. cbn. lia. Qed.

Lemma inject_Z_nonneg n : 0 <= n <-> (0 <= inject_Z n)%Q.
Proof. unfold Qle. cbn. lia. Qed.


Lemma size_crop im x0 y0 x1 y1 :
  x0 <= x1 -> y0 <= y1 -> size (crop im (x0, y0, x1, y1)) = (x1 - x0, y1 - y0).
Proof. intros X Y. cbn. f_equal; lia. Qed.

(** [Image.crop] accepts every box whose edges are in order. *)
Lemma Image_crop_ok im x0 y0 x1 y1 :
  x0 <= x1 -> y0 <= y1 ->
  Image_crop im (x0, y0, x1, y1) = Ok (crop im (x0, y0, x1, y1)).
Proof.
  intros X Y. unfold Image_crop.
  destruct (Z.ltb_spec x1 x0); [lia|]. destruct (Z.ltb_spec y1 y0); [lia|].
  reflexivity.
Qed.


(** A rectangle of non-negative extent that passes the bounds test is mapped
    to a box whose edges are in order. *)
Lemma accepted_box cx cy rect img_w img_h pw ph :
  0 <= img_w -> 0 <= img_h ->
  0 <= rect_width rect -> 0 <= rect_height rect ->
  out_of_bounds cx cy rect pw ph = false ->
  let '(x0, y0, x1, y1) :=
    crop_box cx cy rect (truediv img_w pw) (truediv img_h ph) in
  x0 <= x1 /\ y0 <= y1.
Proof.
  intros IW IH W H B. unfold crop_box. no_round_off.
  apply out_of_bounds_false in B. destruct B as (X & Y & XW & YH).
  apply (proj1 (inject_Z_nonneg _)) in W, H.
  assert (XW' : (cx <= cx + inject_Z (rect_width rect))%Q).
  { rewrite <- (Qplus_0_r cx) at 1. apply Qplus_le_r. exact W. }
  assert (YH' : (cy <= cy + inject_Z (rect_height rect))%Q).
  { rewrite <- (Qplus_0_r cy) at 1. apply Qplus_le_r. exact H. }
  assert (PW : 0 <= pw).
  { apply (proj2 (inject_Z_nonneg _)). eauto using Qle_trans. }
  assert (PH : 0 <= ph).
  { apply (proj2 (inject_Z_nonneg _)). eauto using Qle_trans. }
  assert (M : forall a b img pix, 0 <= img -> 0 <= pix ->
                (0 <= a)%Q -> (a <= b)%Q ->
                py_int (a * (inject_Z img / inject_Z pix))
                <= py_int (b * (inject_Z img / inject_Z pix))).
  { intros a b img pix I0 P0 A AB.
    assert (S0 : (0 <= inject_Z img / inject_Z pix)%Q).
    { unfold Qdiv. apply Qmult_le_0_compat.
      - apply (proj1 (inject_Z_nonneg _)), I0.
      - apply Qinv_le_0_compat, (proj1 (inject_Z_nonneg _)), P0. }
    apply py_int_mono.
    - apply Qmult_le_0_compat; assumption.
    - apply Qmult_le_compat_r; assumption. }
  split; apply M; assumption.
Qed.


(** A crop that goes through takes exactly one snapshot first. *)
Lemma crop_takes_snapshot s v rect im pw ph :
  pixmap_size v = Some (pw, ph) ->
  current_image s = Some im ->
  snd (crop_image s v rect) = Silent ->
  undo_stack (fst (crop_image s v rect)) = undo_stack s ++ [im]
  /\ redo_stack (fst (crop_image s v rect)) = [].
Proof.
  intros P C. unfold crop_image. rewrite P, C.
  destruct (label_size v) as [lw lh].
  destruct (out_of_bounds _ _ _ _ _); [discriminate|].
  destruct (size im) as [img_w img_h].
  destruct ((pw =? 0) || (ph =? 0)); [discriminate|].
  destruct (Image_crop im _); [intros _|discriminate].
  unfold push_undo. rewrite C. split; reflexivity.
Qed.



End Crop.

(** ** Mapping viewport coordinates to image coordinates *)

Section Mapping.

Context {pillow : Primitives} {rounding : Rounding}.

Lemma py_int_truncates q :
  py_int q = if Qle_bool 0 q then Qfloor q else Qceiling q.
Proof.
  destruct (Qle_bool 0 q) eqn:E.
  - apply py_int_floor, Qle_bool_iff, E.
  - apply py_int_ceiling, Qlt_le_weak, Qltb_true.
    unfold Qltb. rewrite E. reflexivity.
Qed.

(** [ImageDraw.line] on the points that [apply_drawing] converts draws the
    segments between the pixel indices of [to_image_space]. *)
Lemma draw_line_converted im offset_x offset_y scale_x scale_y path color w :
  draw_line im (convert_path offset_x offset_y scale_x scale_y path) color w
  = draw_segments im
      (map (fun p =>
              to_image_space scale_x scale_y
                (offset_corrected offset_x offset_y p))
           path)
      color w.
Proof. unfold draw_line, convert_path. rewrite map_map. reflexivity. Qed.

(** C8: [int] truncates toward zero, to the floor of a non-negative value
    and to the ceiling of a negative one, never to the nearest integer.
    [crop_image] subtracts the centering offsets from the corner of the
    rectangle and maps that corner, and the opposite one, to the image by
    [to_image_space]: scaling by [image width / pixmap width] and [image
    height / pixmap height], then truncation. [apply_drawing] subtracts the
    same offsets from every point of a stroke, and the stroke is rasterised
    at the pixel indices that the same [to_image_space] gives. All of this
    holds whatever the rounding of the float operations is. *)
Theorem C8_crop_and_strokes_truncate_alike s v rect path im pw ph lw lh :
  pixmap_size v = Some (pw, ph) ->
  label_size v = (lw, lh) ->
  current_image s = Some im ->
  pw <> 0 -> ph <> 0 ->
  let corrected :=
    offset_corrected (centering_offset lw pw) (centering_offset lh ph) in
  let to_pixel :=
    to_image_space (truediv (width im) pw) (truediv (height im) ph) in
  (forall q, py_int q = if Qle_bool 0 q then Qfloor q else Qceiling q)
  /\ (snd (crop_image s v rect) = Silent ->
      let c := corrected (mkPoint (rect_x rect) (rect_y rect)) in
      let c' := (fadd (fst c) (py_float (rect_width rect)),
                 fadd (snd c) (py_float (rect_height rect))) in
      current_image (fst (crop_image s v rect))
      = Some (crop im (fst (to_pixel c), snd (to_pixel c),
                       fst (to_pixel c'), snd (to_pixel c'))))
  /\ (drawing_lines (image_label s) = [path] ->
      (1 < length path)%nat ->
      current_image (fst (apply_drawing s v))
      = Some (draw_segments im (map (fun p => to_pixel (corrected p)) path)
                (brush_color s) (brush_size s))).
Proof.
  intros P LS C PW PH corrected to_pixel.
  apply Z.eqb_neq in PW, PH.
  split; [exact py_int_truncates|]. split.
  - unfold crop_image. rewrite P, LS, C.
    destruct (out_of_bounds _ _ rect pw ph); [discriminate|].
    unfold width, height in to_pixel. destruct (size im) as [img_w img_h].
    rewrite PW, PH. cbn [orb]. unfold Image_crop, crop_box.
    destruct (_ || _); [discriminate|]. intros _. reflexivity.
  - intros D Len. unfold apply_drawing. rewrite C, D, P, LS.
    unfold width, height in to_pixel. destruct (size im) as [img_w img_h].
    rewrite PW, PH. cbn [nonempty negb orb fst snd].
    unfold draw_paths. cbn [fold_left].
    apply Nat.ltb_lt in Len. rewrite Len, draw_line_converted. reflexivity.
Qed.

End Mapping.

(** C8 on [gradient] shown in 195 x 195 pixels, with the arithmetic of
    CPython: the corner (461, 291) of the rectangle lies 58.5 pixels into the
    pixmap, and [58.5 * (100 / 195)] rounds to a float just below 30, which
    truncates to 29. *)
Lemma C8_crop_and_strokes_witness :
  pixmap_size Samples.shrunk = Some (195, 195)
  /\ label_size Samples.shrunk = (1000, 660)
  /\ current_image Samples.stroke_captured = Some Samples.gradient
  /\ drawing_lines (image_label Samples.stroke_captured) = [Samples.stroke]
  /\ snd (@crop_image binary64 Samples.stroke_captured Samples.shrunk
            Samples.inner_rect) = Silent
  /\ current_image
       (fst (@crop_image binary64 Samples.stroke_captured Samples.shrunk
               Samples.inner_rect))
     = Some (crop Samples.gradient (29, 29, 35, 35))
  /\ current_image
       (fst (@apply_drawing sampled binary64 Samples.stroke_captured
               Samples.shrunk))
     = Some (@draw_segments sampled Samples.gradient
               [(29, 29); (34, 34); (39, 29)] "#0000ff" 3).
Proof.
  assert (A : snd (@crop_image binary64 Samples.stroke_captured Samples.shrunk
                     Samples.inner_rect) = Silent) by (vm_compute; reflexivity).
  split; [reflexivity|]. split; [reflexivity|]. split; [reflexivity|].
  split; [reflexivity|]. split; [exact A|].
  destruct (@C8_crop_and_strokes_truncate_alike sampled binary64
              Samples.stroke_captured Samples.shrunk Samples.inner_rect
              Samples.stroke Samples.gradient 195 195 1000 660
              eq_refl eq_refl eq_refl) as (_ & Crop & Stroke);
    [discriminate | discriminate |].
  split.
  - rewrite (Crop A). vm_compute. reflexivity.
  - rewrite Stroke; [vm_compute; reflexivity | reflexivity | cbn; lia].
Defined.

(** ** Rotation *)

Section Rotation.

Context {pillow : Primitives} {rounding : Rounding}.

(** [-90 % 360.0] is [-90 + 360], which is a float. *)
Lemma rotate_minus_90 im :
  (fl 270 == 270)%Q -> rotate im (- 90) = transpose im ROTATE_270.
Proof.
  intros F. unfold rotate. change (py_mod (- 90) 360) with (fl 270).
  assert (E : forall b, Qeq_bool (fl 270) b = Qeq_bool 270 b).
  { intros b. destruct (Qeq_bool 270 b) eqn:B.
    - apply Qeq_bool_iff. rewrite F. apply Qeq_bool_iff, B.
    - apply not_true_is_false. intros T. apply Qeq_bool_iff in T.
      rewrite F in T. apply Qeq_bool_iff in T. congruence. }
  rewrite !E. reflexivity.
Qed.

(** A clockwise quarter turn: the output is [h] wide and [w] high and its
    pixel [(x, y)] is the input pixel [(y, h - 1 - x)]. *)
Lemma transpose_270_pixels im w h x y :
  well_formed im = true -> size im = (w, h) ->
  0 <= x < h -> 0 <= y < w ->
  pixel_at (transpose im ROTATE_270) x y = pixel_at im y (h - 1 - x).
Proof.
  intros WF S Hx Hy. unfold transpose, width, height. rewrite S. cbn [fst snd].
  rewrite pixel_at_build by lia.
  destruct (pixel_at_defined im y (h - 1 - x) WF) as [p E];
    unfold width, height; rewrite ?S; cbn [fst snd]; try lia.
  rewrite E. f_equal. apply px_pixel_at, E.
Qed.

(** X28: entering 90 in the rotate dialog turns the image a quarter turn
    clockwise on a canvas that exactly bounds it: a [w] x [h] image becomes
    [h] x [w] and output pixel [(x, y)] is input pixel [(y, h - 1 - x)]; in
    particular a 100 x 100 image stays 100 x 100 and its output pixel (0, 0)
    is the input pixel (0, 99). This holds for every rounding that leaves
    270 as it is, as [exact] and [binary64] do. *)
Theorem X28_rotate_90_turns_clockwise s im w h :
  (fl 270 == 270)%Q ->
  current_image s = Some im ->
  well_formed im = true ->
  size im = (w, h) ->
  exists out,
    current_image (fst (advanced_rotate s (Some 90%Q))) = Some out
    /\ size out = (h, w)
    /\ (forall x y, 0 <= x < h -> 0 <= y < w ->
        pixel_at out x y = pixel_at im y (h - 1 - x))
    /\ (w = 100 -> h = 100 ->
        size out = (100, 100) /\ pixel_at out 0 0 = pixel_at im 0 99).
Proof.
  intros F C WF S. exists (transpose im ROTATE_270).
  split; [unfold advanced_rotate; rewrite C, (rotate_minus_90 _ F);
          reflexivity|].
  split; [unfold transpose, width, height; rewrite S; reflexivity|].
  split; [intros x y Hx Hy; apply (transpose_270_pixels im w h); assumption|].
  intros -> ->. split.
  - unfold transpose, width, height. rewrite S. reflexivity.
  - apply (transpose_270_pixels im 100 100); try assumption; lia.
Qed.

End Rotation.

Lemma X28_rotate_90_witness :
  (@fl binary64 270 == 270)%Q
  /\ current_image Samples.gradient_opened = Some Samples.gradient
  /\ well_formed Samples.gradient = true
  /\ size Samples.gradient = (100, 100)
  /\ exists out,
       current_image
         (fst (@advanced_rotate sampled binary64 Samples.gradient_opened
                 (Some 90%Q)))
       = Some out
       /\ size out = (100, 100)
       /\ (forall x y, 0 <= x < 100 -> 0 <= y < 100 ->
           pixel_at out x y = pixel_at Samples.gradient y (100 - 1 - x))
       /\ (100 = 100 -> 100 = 100 ->
           size out = (100, 100)
           /\ pixel_at out 0 0 = pixel_at Samples.gradient 0 99).
Proof.
  split; [reflexivity|]. split; [reflexivity|].
  split; [vm_compute; reflexivity|]. split; [reflexivity|].
  apply (@X28_rotate_90_turns_clockwise sampled binary64
           Samples.gradient_opened Samples.gradient 100 100);
    [reflexivity | reflexivity | vm_compute; reflexivity | reflexivity].
Defined.

(** ** Grayscale *)

Section Grayscale.

Context {pillow : Primitives} {rounding : Rounding}.

(** C9 as the code has it: Grayscale yields an RGB image of the same size;
    where the input pixel is [(r, g, b, a)], the output pixel has its three
    channels equal to the luminance of [(r, g, b)] and no alpha channel, so
    that it is displayed fully opaque (alpha 255) whatever [a] was. *)
Theorem C9_grayscale_equal_channels_no_alpha s im :
  current_image s = Some im ->
  exists out,
    current_image (fst (apply_filter s "Grayscale")) = Some out
    /\ mode out = RGB
    /\ size out = size im
    /\ forall x y r g b a,
        pixel_at im x y = Some (PxRGBA r g b a) ->
        let l := luminance (PxRGBA r g b a) in
        pixel_at out x y = Some (PxRGB l l l)
        /\ alpha (PxRGB l l l) = None
        /\ pixel_at (pil2pixmap out) x y = Some (PxRGBA l l l 255).
Proof.
  intros C. exists (convert (convert im L) RGB).
  split; [unfold apply_filter; rewrite C; reflexivity|].
  split; [reflexivity|]. split; [reflexivity|].
  intros x y r g b a E l. unfold pil2pixmap.
  rewrite !pixel_at_convert, E. repeat split.
Qed.

End Grayscale.

Lemma C9_grayscale_witness :
  current_image Samples.veil_opened = Some Samples.veil
  /\ exists out,
       current_image (fst (@apply_filter sampled Samples.veil_opened "Grayscale"))
       = Some out
       /\ mode out = RGB
       /\ size out = size Samples.veil
       /\ forall x y r g b a,
           pixel_at Samples.veil x y = Some (PxRGBA r g b a) ->
           let l := luminance (PxRGBA r g b a) in
           pixel_at out x y = Some (PxRGB l l l)
           /\ alpha (PxRGB l l l) = None
           /\ pixel_at (pil2pixmap out) x y = Some (PxRGBA l l l 255).
Proof.
  split; [reflexivity|].
  exact (@C9_grayscale_equal_channels_no_alpha sampled Samples.veil_opened
           Samples.veil eq_refl).
Defined.

(** C9 fails as stated: the pixel (10, 20, 30) with alpha 128 becomes the
    RGB pixel (18, 18, 18), which has no alpha channel, and is displayed
    with alpha 255: the input alpha 128 is not kept. *)
Lemma C9_grayscale_loses_alpha :
  exists out p,
    current_image (fst (@apply_filter sampled Samples.veil_opened "Grayscale"))
    = Some out
    /\ option_map alpha (pixel_at Samples.veil 0 0) = Some (Some 128)
    /\ pixel_at out 0 0 = Some p
    /\ p = PxRGB 18 18 18
    /\ alpha p <> Some 128
    /\ option_map alpha (pixel_at (pil2pixmap out) 0 0) = Some (Some 255).
Proof.
  do 2 eexists. split; [reflexivity|]. split; [reflexivity|].
  split; [reflexivity|]. split; [reflexivity|]. split; [discriminate|].
  reflexivity.
Qed.

(** * Further properties of the slots *)

(** ** History *)

Section MoreHistory.

Lemma pop_spec {A} (l : list A) : forall a r,
  pop l = Some (a, r) -> l = r ++ [a].
Proof.
  induction l as [|b l IH]; intros a r; [discriminate|].
  destruct l as [|c l].
  - cbn. intros [= <- <-]. reflexivity.
  - change (pop (b :: c :: l))
      with (match pop (c :: l) with
            | Some (y, r) => Some (y, b :: r) | None => None end).
    destruct (pop (c :: l)) as [[y r']|] eqn:E; [|discriminate].
    intros [= <- <-]. rewrite (IH y r' eq_refl). reflexivity.
Qed.

Lemma pop_none {A} (l : list A) : pop l = None -> l = [].
Proof.
  destruct l as [|b l]; [reflexivity|].
  destruct (exists_last (l := b :: l)) as (r & a & E); [discriminate|].
  rewrite E, pop_app. discriminate.
Qed.

Lemma top_app_last {A} (l : list A) (a : A) : top (l ++ [a]) = Some a.
Proof. unfold top. rewrite pop_app. reflexivity. Qed.

Lemma split_last {A} (l : list A) :
  (1 < length l)%nat ->
  exists r t a, l = (r ++ [t]) ++ [a].
Proof.
  intros Len.
  destruct (exists_last (l := l)) as (r' & a & E);
    [intros ->; cbn in Len; lia|].
  subst l. rewrite length_app in Len. cbn in Len.
  destruct (exists_last (l := r')) as (r & t & E);
    [intros ->; cbn in Len; lia|].
  subst r'. eauto.
Qed.

(** X1: [undo] and [redo] only move entries from one stack to the other:
    the undo stack followed by the reversed redo stack is the same sequence
    of images before and after either of them. *)
Theorem X1_undo_redo_move_entries s :
  undo_stack (fst (undo s)) ++ rev (redo_stack (fst (undo s)))
  = undo_stack s ++ rev (redo_stack s)
  /\ undo_stack (fst (redo s)) ++ rev (redo_stack (fst (redo s)))
     = undo_stack s ++ rev (redo_stack s).
Proof.
  split.
  - unfold undo. destruct (1 <? length (undo_stack s))%nat; [|reflexivity].
    destruct (pop (undo_stack s)) as [[popped rest]|] eqn:P; [|reflexivity].
    destruct (top rest); [|reflexivity].
    cbn [fst undo_stack redo_stack].
    rewrite (pop_spec _ _ _ P), rev_app_distr, <- app_assoc. reflexivity.
  - unfold redo.
    destruct (pop (redo_stack s)) as [[popped rest]|] eqn:P; [|reflexivity].
    cbn [fst undo_stack redo_stack]. unfold copy.
    rewrite (pop_spec _ _ _ P), rev_app_distr, <- app_assoc. reflexivity.
Qed.

(** X2: when the undo stack holds more than one entry, [undo] followed by
    [redo] leaves both stacks exactly as they were; the current image
    becomes the entry on top of the undo stack. *)
Theorem X2_redo_after_undo_restores_stacks s :
  (1 < length (undo_stack s))%nat ->
  let s' := fst (redo (fst (undo s))) in
  snd (undo s) = Silent
  /\ undo_stack s' = undo_stack s
  /\ redo_stack s' = redo_stack s
  /\ current_image s' = top (undo_stack s).
Proof.
  intros Len s'. subst s'. unfold undo.
  apply Nat.ltb_lt in Len. rewrite Len.
  apply Nat.ltb_lt in Len. destruct (split_last _ Len) as (r & t & a & E).
  rewrite E, pop_app, top_app_last. cbn [fst snd].
  unfold redo. cbn [redo_stack]. rewrite pop_app.
  cbn [fst undo_stack redo_stack current_image]. unfold top, copy.
  rewrite pop_app. auto.
Qed.

(** X3: when neither stack is empty, [redo] followed by [undo] leaves both
    stacks exactly as they were; the current image becomes the entry on top
    of the undo stack. *)
Theorem X3_undo_after_redo_restores_stacks s :
  undo_stack s <> [] -> redo_stack s <> [] ->
  let s' := fst (undo (fst (redo s))) in
  snd (redo s) = Silent
  /\ undo_stack s' = undo_stack s
  /\ redo_stack s' = redo_stack s
  /\ current_image s' = top (undo_stack s).
Proof.
  intros U R s'. subst s'.
  destruct (exists_last U) as (u & t & EU).
  destruct (exists_last R) as (r & a & ER).
  unfold redo. rewrite ER, pop_app. cbn [fst snd]. unfold undo.
  cbn [undo_stack redo_stack]. rewrite EU, !length_app. cbn [length].
  replace (1 <? length u + 1 + 1)%nat with true
    by (symmetry; apply Nat.ltb_lt; lia).
  rewrite (pop_app (u ++ [t]) (copy (copy a))), !top_app_last.
  cbn [fst undo_stack redo_stack current_image]. unfold copy. auto.
Qed.

End MoreHistory.

Lemma X2_redo_after_undo_witness :
  (1 < length (undo_stack Samples.flipped))%nat
  /\ snd (undo Samples.flipped) = Silent
  /\ undo_stack (fst (redo (fst (undo Samples.flipped))))
     = undo_stack Samples.flipped
  /\ redo_stack (fst (redo (fst (undo Samples.flipped))))
     = redo_stack Samples.flipped
  /\ current_image (fst (redo (fst (undo Samples.flipped))))
     = top (undo_stack Samples.flipped).
Proof.
  split; [cbn; lia|].
  apply (X2_redo_after_undo_restores_stacks Samples.flipped). cbn. lia.
Defined.

Lemma X3_undo_after_redo_witness :
  undo_stack Samples.undone <> [] /\ redo_stack Samples.undone <> []
  /\ snd (redo Samples.undone) = Silent
  /\ undo_stack (fst (undo (fst (redo Samples.undone))))
     = undo_stack Samples.undone
  /\ redo_stack (fst (undo (fst (redo Samples.undone))))
     = redo_stack Samples.undone
  /\ current_image (fst (undo (fst (redo Samples.undone))))
     = top (undo_stack Samples.undone).
Proof.
  split; [discriminate|]. split; [discriminate|].
  apply (X3_undo_after_redo_restores_stacks Samples.undone); discriminate.
Defined.

Section EditsAndHistory.

Context {pillow : Primitives} {rounding : Rounding}.

Lemma undo_after_edit s im t post :
  current_image s = Some im ->
  top (undo_stack s) = Some t ->
  let edited := with_image post (push_undo s) in
  snd (undo edited) = Silent
  /\ current_image (fst (undo edited)) = Some t
  /\ undo_stack (fst (undo edited)) = undo_stack s
  /\ redo_stack (fst (undo edited)) = [im].
Proof.
  intros C T edited. subst edited. unfold push_undo. rewrite C. unfold undo.
  cbn [undo_stack with_image redo_stack].
  destruct (undo_stack s) as [|b st] eqn:U; [discriminate|].
  rewrite length_app. cbn [length].
  replace (1 <? S (length st) + 1)%nat with true
    by (symmetry; apply Nat.ltb_lt; lia).
  rewrite pop_app, T. cbn. auto.
Qed.

(** X4: [undo] right after an edit slot (flip, resize, rotate, colour
    adjustment, a filter that went through) puts the undo stack back as it
    was before the edit and installs the image [t] that was on top of it;
    the snapshot taken by the edit becomes the only redo entry. The edit is
    thus reverted exactly when the current image was the top of the undo
    stack, as it is after [open_image], [undo] and [redo]. *)
Theorem X4_undo_after_edit_restores_undo_stack s im t :
  current_image s = Some im ->
  top (undo_stack s) = Some t ->
  let reverted s' :=
    snd (undo s') = Silent
    /\ current_image (fst (undo s')) = Some t
    /\ undo_stack (fst (undo s')) = undo_stack s
    /\ redo_stack (fst (undo s')) = [im] in
  reverted (fst (flip_horizontal s))
  /\ reverted (fst (flip_vertical s))
  /\ (forall w h, reverted (fst (resize_image s (Some w) (Some h))))
  /\ (forall a, reverted (fst (advanced_rotate s (Some a))))
  /\ (forall v, reverted (fst (adjust_colors s (Some v))))
  /\ (forall name,
        snd (apply_filter s name) = Silent ->
        reverted (fst (apply_filter s name))).
Proof.
  intros C T reverted. subst reverted.
  unfold flip_horizontal, flip_vertical, resize_image, advanced_rotate,
    adjust_colors, apply_filter.
  rewrite C. cbn [fst].
  repeat match goal with |- _ /\ _ => split end; intros;
    try (apply (undo_after_edit s im t); assumption).
  - destruct v as [[b c] sat]. cbn [get_values fst].
    apply (undo_after_edit s im t); assumption.
  - revert H.
    match goal with |- context [match ?r with Ok _ => _ | Raise _ => _ end] =>
      destruct r end; cbn [fst snd]; [intros _|discriminate].
    apply (undo_after_edit s im t); assumption.
Qed.

(** X5: right after an edit slot there is nothing to redo: whatever the redo
    stack held, [redo] reports so and changes nothing. *)
Theorem X5_nothing_to_redo_after_an_edit s im :
  current_image s = Some im ->
  let spent s' := redo s' = (s', nothing_to_redo) in
  spent (fst (flip_horizontal s))
  /\ spent (fst (flip_vertical s))
  /\ (forall w h, spent (fst (resize_image s (Some w) (Some h))))
  /\ (forall a, spent (fst (advanced_rotate s (Some a))))
  /\ (forall v, spent (fst (adjust_colors s (Some v))))
  /\ (forall name, spent (fst (apply_filter s name))).
Proof.
  intros C spent. subst spent.
  destruct (edit_takes_snapshot s im C) as (A1 & A2 & A3 & A4 & A5 & A6).
  assert (E : forall s', redo_stack s' = [] -> redo s' = (s', nothing_to_redo)).
  { intros s' R. unfold redo. rewrite R. reflexivity. }
  repeat match goal with |- _ /\ _ => split end; intros; apply E.
  - apply A1.
  - apply A2.
  - apply (A3 w h).
  - apply (A4 a).
  - apply (A5 v).
  - apply (A6 name).
Qed.

(** X6: the Sepia filter is not atomic: on every loaded image it raises
    [IndexError] and leaves the current image as it was, but by then the
    snapshot has been appended to the undo stack and the redo stack has
    been emptied. *)
Theorem X6_failed_sepia_has_changed_history s im :
  current_image s = Some im ->
  snd (apply_filter s "Sepia") = Raised IndexError
  /\ current_image (fst (apply_filter s "Sepia")) = Some im
  /\ undo_stack (fst (apply_filter s "Sepia")) = undo_stack s ++ [im]
  /\ redo_stack (fst (apply_filter s "Sepia")) = [].
Proof.
  intros C. rewrite (sepia_raises s im C). cbn [fst snd].
  rewrite push_undo_image, push_undo_stack, C.
  repeat split. unfold push_undo. rewrite C. reflexivity.
Qed.

(** X7: while no image is loaded, every slot that needs one (save, crop
    mode, resize, rotate, both flips, colour adjustment, every filter,
    drawing, histogram) shows the warning "No image loaded." and leaves the
    whole state as it is. *)
Theorem X7_slots_refuse_without_image s :
  current_image s = None ->
  save_image s = (s, no_image)
  /\ crop_mode s = (s, no_image)
  /\ (forall w h, resize_image s w h = (s, no_image))
  /\ (forall a, advanced_rotate s a = (s, no_image))
  /\ flip_horizontal s = (s, no_image)
  /\ flip_vertical s = (s, no_image)
  /\ (forall v, adjust_colors s v = (s, no_image))
  /\ (forall name, apply_filter s name = (s, no_image))
  /\ (forall v, toggle_drawing s v = (s, no_image))
  /\ show_histogram s = (s, no_image).
Proof.
  intros C.
  unfold save_image, crop_mode, resize_image, advanced_rotate,
    flip_horizontal, flip_vertical, adjust_colors, apply_filter,
    toggle_drawing, show_histogram.
  rewrite C. repeat split.
Qed.

(** X8: saving, entering crop mode, choosing the brush, zooming, the
    histogram, the layer notice, pointer presses and moves, a cancelled open
    and an open on which [Image.open] itself raises never touch the current
    image, the undo stack or the redo stack. *)
Theorem X8_view_events_keep_image_and_history s ev :
  view_only ev = true ->
  current_image (fst (step s ev)) = current_image s
  /\ undo_stack (fst (step s ev)) = undo_stack s
  /\ redo_stack (fst (step s ev)) = redo_stack s.
Proof.
  destruct ev as [[|message|im'|im' message]| | |new_w new_h|angle| |
                 |sliders|filter_name|v|color|bsize| | | | | | |pos|pos
                 |pos v];
    try discriminate; intros _; cbn [step open_image fst];
    unfold save_image, crop_mode, choose_brush_color, set_brush_size,
      zoom_in, zoom_out, show_histogram, layer_support;
    repeat match goal with
           | |- context [match ?o with Some _ => _ | None => _ end] =>
               destruct o eqn:?
           end;
    repeat split; cbn; auto.
Qed.


End EditsAndHistory.

Lemma X4_undo_after_edit_witness :
  current_image Samples.opened = Some Samples.two_pixels
  /\ top (undo_stack Samples.opened) = Some Samples.two_pixels
  /\ current_image (fst (undo (fst (flip_horizontal Samples.opened))))
     = Some Samples.two_pixels
  /\ undo_stack (fst (undo (fst (flip_horizontal Samples.opened))))
     = undo_stack Samples.opened.
Proof.
  split; [reflexivity|]. split; [reflexivity|].
  destruct (@X4_undo_after_edit_restores_undo_stack sampled exact Samples.opened
              Samples.two_pixels Samples.two_pixels eq_refl eq_refl)
    as [(_ & Cur & Und & _) _].
  split; [exact Cur | exact Und].
Defined.

Lemma X5_nothing_to_redo_witness :
  current_image Samples.undone = Some Samples.two_pixels
  /\ redo_stack Samples.undone = [Samples.two_pixels]
  /\ redo (fst (flip_vertical Samples.undone))
     = (fst (flip_vertical Samples.undone), nothing_to_redo).
Proof.
  split; [reflexivity|]. split; [reflexivity|].
  destruct (@X5_nothing_to_redo_after_an_edit sampled exact Samples.undone
              Samples.two_pixels eq_refl) as (_ & V & _).
  exact V.
Defined.

Lemma X6_failed_sepia_witness :
  current_image Samples.undone = Some Samples.two_pixels
  /\ snd (@apply_filter sampled Samples.undone "Sepia") = Raised IndexError
  /\ current_image (fst (@apply_filter sampled Samples.undone "Sepia"))
     = Some Samples.two_pixels
  /\ undo_stack (fst (@apply_filter sampled Samples.undone "Sepia"))
     = undo_stack Samples.undone ++ [Samples.two_pixels]
  /\ redo_stack (fst (@apply_filter sampled Samples.undone "Sepia")) = [].
Proof.
  split; [reflexivity|].
  exact (@X6_failed_sepia_has_changed_history sampled Samples.undone
           Samples.two_pixels eq_refl).
Defined.

Lemma X7_slots_refuse_witness :
  current_image init = None
  /\ save_image init = (init, no_image)
  /\ crop_mode init = (init, no_image)
  /\ (forall w h, @resize_image sampled init w h = (init, no_image))
  /\ (forall a, @advanced_rotate sampled exact init a = (init, no_image))
  /\ flip_horizontal init = (init, no_image)
  /\ flip_vertical init = (init, no_image)
  /\ (forall v, @adjust_colors sampled exact init v = (init, no_image))
  /\ (forall name, @apply_filter sampled init name = (init, no_image))
  /\ (forall v, @toggle_drawing sampled exact init v = (init, no_image))
  /\ show_histogram init = (init, no_image).
Proof.
  split; [reflexivity|].
  exact (@X7_slots_refuse_without_image sampled exact init eq_refl).
Defined.

Lemma X8_view_events_witness :
  view_only (EvOpen (OpenFailed "cannot identify image file")) = true
  /\ current_image
       (fst (@step sampled exact Samples.flipped
               (EvOpen (OpenFailed "cannot identify image file"))))
     = current_image Samples.flipped
  /\ undo_stack
       (fst (@step sampled exact Samples.flipped
               (EvOpen (OpenFailed "cannot identify image file"))))
     = undo_stack Samples.flipped
  /\ redo_stack
       (fst (@step sampled exact Samples.flipped
               (EvOpen (OpenFailed "cannot identify image file"))))
     = redo_stack Samples.flipped.
Proof.
  split; [reflexivity|].
  exact (@X8_view_events_keep_image_and_history sampled exact
           Samples.flipped
           (EvOpen (OpenFailed "cannot identify image file")) eq_refl).
Defined.

(** ** Flips and quarter turns *)

Section Geometry.

Context {pillow : Primitives} {rounding : Rounding}.

Lemma in_range n k : In k (range n) <-> 0 <= k < n.
Proof.
  unfold range. rewrite in_map_iff. split.
  - intros (i & <- & H). apply in_seq in H. lia.
  - intros H. exists (Z.to_nat k). split; [lia|]. apply in_seq. lia.
Qed.

Lemma map_range_nth {A} (l : list A) (f : Z -> A) :
  (forall k, 0 <= k < Z.of_nat (length l) ->
             nth_error l (Z.to_nat k) = Some (f k)) ->
  map f (range (Z.of_nat (length l))) = l.
Proof.
  intros H. apply nth_error_ext. intros i. unfold range.
  rewrite !nth_error_map, nth_error_seq, Nat2Z.id.
  destruct (Nat.ltb_spec i (length l)) as [Lt|Ge]; cbn.
  - rewrite <- (H (Z.of_nat i)) by lia. rewrite Nat2Z.id. reflexivity.
  - symmetry. apply nth_error_None. exact Ge.
Qed.

Lemma build_ext m w h f g :
  (forall x y, 0 <= x < w -> 0 <= y < h -> f x y = g x y) ->
  build m w h f = build m w h g.
Proof.
  intros E. unfold build. f_equal.
  apply map_ext_in. intros y Hy. apply map_ext_in. intros x Hx.
  apply in_range in Hx, Hy. auto.
Qed.

Lemma px_build m w h f x y :
  0 <= x < w -> 0 <= y < h -> px (build m w h f) x y = f x y.
Proof. intros Hx Hy. apply px_pixel_at, pixel_at_build; assumption. Qed.

(** A well-formed image is the table of its own pixels. *)
Lemma build_px_id im :
  well_formed im = true ->
  build (mode im) (width im) (height im) (px im) = im.
Proof.
  intros WF. unfold well_formed in WF. rewrite !andb_true_iff in WF.
  destruct WF as [[[_ _] Len] Rows].
  apply Z.eqb_eq in Len. rewrite forallb_forall in Rows.
  destruct im as [m [w h] rs]. unfold build, width, height in *.
  cbn [mode size rows fst snd] in *. f_equal.
  rewrite <- Len. apply map_range_nth. intros y Hy.
  destruct (nth_error rs (Z.to_nat y)) as [r|] eqn:R;
    [|apply nth_error_None in R; lia].
  f_equal. specialize (Rows r (nth_error_In _ _ R)).
  unfold row_ok in Rows. apply andb_true_iff in Rows.
  destruct Rows as [Wr _]. apply Z.eqb_eq in Wr.
  symmetry. rewrite <- Wr. apply map_range_nth. intros x Hx.
  destruct (nth_error r (Z.to_nat x)) as [p|] eqn:E;
    [|apply nth_error_None in E; lia].
  f_equal. symmetry. apply px_pixel_at.
  unfold pixel_at, width, height. cbn [size rows fst snd].
  repeat match goal with
         | |- context [Z.leb ?a ?b] => destruct (Z.leb_spec a b); [|lia]
         | |- context [Z.ltb ?a ?b] => destruct (Z.ltb_spec a b); [|lia]
         end.
  cbn [andb]. rewrite R. exact E.
Qed.

Lemma transpose_mode im t : mode (transpose im t) = mode im.
Proof. destruct t; reflexivity. Qed.

Lemma size_mirror im : size (mirror im) = size im.
Proof.
  unfold mirror, transpose, build, width, height. cbn [size].
  destruct (size im); reflexivity.
Qed.

Lemma size_flip im : size (flip im) = size im.
Proof.
  unfold flip, transpose, build, width, height. cbn [size].
  destruct (size im); reflexivity.
Qed.

Lemma mirror_pixels im x y :
  well_formed im = true ->
  0 <= x < width im -> 0 <= y < height im ->
  pixel_at (mirror im) x y = pixel_at im (width im - 1 - x) y.
Proof.
  intros WF Hx Hy. unfold mirror, transpose. rewrite pixel_at_build by lia.
  destruct (pixel_at_defined im (width im - 1 - x) y WF) as [p E]; try lia.
  rewrite E. f_equal. apply px_pixel_at, E.
Qed.

Lemma flip_pixels im x y :
  well_formed im = true ->
  0 <= x < width im -> 0 <= y < height im ->
  pixel_at (flip im) x y = pixel_at im x (height im - 1 - y).
Proof.
  intros WF Hx Hy. unfold flip, transpose. rewrite pixel_at_build by lia.
  destruct (pixel_at_defined im x (height im - 1 - y) WF) as [p E]; try lia.
  rewrite E. f_equal. apply px_pixel_at, E.
Qed.

(** X9: Flip H keeps mode and size and shows at [(x, y)] the pixel that was
    at [(width - 1 - x, y)]; Flip V keeps mode and size and shows at
    [(x, y)] the pixel that was at [(x, height - 1 - y)]. *)
Theorem X9_flips_mirror_the_pixels s im :
  current_image s = Some im ->
  well_formed im = true ->
  (exists out,
     current_image (fst (flip_horizontal s)) = Some out
     /\ mode out = mode im /\ size out = size im
     /\ forall x y, 0 <= x < width im -> 0 <= y < height im ->
          pixel_at out x y = pixel_at im (width im - 1 - x) y)
  /\ (exists out,
        current_image (fst (flip_vertical s)) = Some out
        /\ mode out = mode im /\ size out = size im
        /\ forall x y, 0 <= x < width im -> 0 <= y < height im ->
             pixel_at out x y = pixel_at im x (height im - 1 - y)).
Proof.
  intros C WF. unfold flip_horizontal, flip_vertical. rewrite C. split.
  - exists (mirror im). split; [reflexivity|]. split; [reflexivity|].
    split; [apply size_mirror|].
    intros x y Hx Hy. apply mirror_pixels; assumption.
  - exists (flip im). split; [reflexivity|]. split; [reflexivity|].
    split; [apply size_flip|].
    intros x y Hx Hy. apply flip_pixels; assumption.
Qed.

Lemma mirror_mirror im : well_formed im = true -> mirror (mirror im) = im.
Proof.
  intros WF. rewrite <- (build_px_id im WF) at 2.
  unfold mirror, transpose. apply build_ext. intros x y Hx Hy.
  unfold width, height, build in Hx, Hy |- *. cbn [size fst snd] in *.
  fold (build (mode im) (fst (size im)) (snd (size im))
          (fun x y => px im (fst (size im) - 1 - x) y)).
  rewrite px_build by lia. f_equal. lia.
Qed.

Lemma flip_flip im : well_formed im = true -> flip (flip im) = im.
Proof.
  intros WF. rewrite <- (build_px_id im WF) at 2.
  unfold flip, transpose. apply build_ext. intros x y Hx Hy.
  unfold width, height, build in Hx, Hy |- *. cbn [size fst snd] in *.
  fold (build (mode im) (fst (size im)) (snd (size im))
          (fun x y => px im x (snd (size im) - 1 - y))).
  rewrite px_build by lia. f_equal. lia.
Qed.

(** X10: Flip H twice, and Flip V twice, bring back the image exactly as it
    was. *)
Theorem X10_flipping_twice_restores_the_image s im :
  current_image s = Some im ->
  well_formed im = true ->
  current_image (fst (flip_horizontal (fst (flip_horizontal s)))) = Some im
  /\ current_image (fst (flip_vertical (fst (flip_vertical s)))) = Some im.
Proof.
  intros C WF. unfold flip_horizontal, flip_vertical. rewrite C.
  cbn [fst current_image with_image].
  rewrite mirror_mirror, flip_flip by exact WF. split; reflexivity.
Qed.

End Geometry.

Section Turns.

Context {pillow : Primitives}.

Lemma transpose_build m w h f t :
  transpose (build m w h f) t
  = let im := build m w h f in
    match t with
    | FLIP_LEFT_RIGHT => build m w h (fun x y => px im (w - 1 - x) y)
    | FLIP_TOP_BOTTOM => build m w h (fun x y => px im x (h - 1 - y))
    | ROTATE_90 => build m h w (fun x y => px im (w - 1 - y) x)
    | ROTATE_180 => build m w h (fun x y => px im (w - 1 - x) (h - 1 - y))
    | ROTATE_270 => build m h w (fun x y => px im y (h - 1 - x))
    end.
Proof. destruct t; reflexivity. Qed.

Lemma transpose_as_build im t :
  transpose im t
  = let w := width im in
    let h := height im in
    match t with
    | FLIP_LEFT_RIGHT => build (mode im) w h (fun x y => px im (w - 1 - x) y)
    | FLIP_TOP_BOTTOM => build (mode im) w h (fun x y => px im x (h - 1 - y))
    | ROTATE_90 => build (mode im) h w (fun x y => px im (w - 1 - y) x)
    | ROTATE_180 =>
        build (mode im) w h (fun x y => px im (w - 1 - x) (h - 1 - y))
    | ROTATE_270 => build (mode im) h w (fun x y => px im y (h - 1 - x))
    end.
Proof. destruct t; reflexivity. Qed.

Ltac pixelwise :=
  cbv zeta; apply build_ext; intros x y Hx Hy;
  rewrite px_build by lia; f_equal; lia.

(** Two clockwise quarter turns are a half turn. *)
Lemma quarter_quarter im :
  transpose (transpose im ROTATE_270) ROTATE_270 = transpose im ROTATE_180.
Proof.
  rewrite (transpose_as_build im ROTATE_270), transpose_build.
  rewrite (transpose_as_build im ROTATE_180). pixelwise.
Qed.

Lemma half_half im :
  well_formed im = true ->
  transpose (transpose im ROTATE_180) ROTATE_180 = im.
Proof.
  intros WF. rewrite <- (build_px_id im WF) at 2.
  rewrite (transpose_as_build im ROTATE_180), transpose_build. pixelwise.
Qed.

Lemma quarter_back im :
  well_formed im = true ->
  transpose (transpose im ROTATE_270) ROTATE_90 = im.
Proof.
  intros WF. rewrite <- (build_px_id im WF) at 2.
  rewrite (transpose_as_build im ROTATE_270), transpose_build. pixelwise.
Qed.

Lemma mirror_flip im : mirror (flip im) = transpose im ROTATE_180.
Proof.
  unfold mirror, flip.
  rewrite (transpose_as_build im FLIP_TOP_BOTTOM), transpose_build.
  rewrite (transpose_as_build im ROTATE_180). pixelwise.
Qed.

Lemma flip_mirror im : flip (mirror im) = transpose im ROTATE_180.
Proof.
  unfold mirror, flip.
  rewrite (transpose_as_build im FLIP_LEFT_RIGHT), transpose_build.
  rewrite (transpose_as_build im ROTATE_180). pixelwise.
Qed.

Lemma quarter_turn im : rotate im (- 90) = transpose im ROTATE_270.
Proof. reflexivity. Qed.

Lemma rotate_minus_180 im : rotate im (- 180) = transpose im ROTATE_180.
Proof. reflexivity. Qed.

Lemma rotate_minus_270 im : rotate im (- 270) = transpose im ROTATE_90.
Proof. reflexivity. Qed.

Lemma rotate_current s im a :
  current_image s = Some im ->
  current_image (fst (advanced_rotate s (Some a))) = Some (rotate im (- a)).
Proof. intros C. unfold advanced_rotate. rewrite C. reflexivity. Qed.

(** X11: quarter turns compose as turns do. Entering 90 four times, 180
    twice, or 90 and then 270, brings back the image exactly as it was, and
    entering 90 twice gives the same image as entering 180 once. *)
Theorem X11_quarter_turns_compose s im :
  current_image s = Some im ->
  well_formed im = true ->
  let turn a st := fst (advanced_rotate st (Some a)) in
  current_image (turn 90%Q (turn 90%Q (turn 90%Q (turn 90%Q s)))) = Some im
  /\ current_image (turn 180%Q (turn 180%Q s)) = Some im
  /\ current_image (turn 270%Q (turn 90%Q s)) = Some im
  /\ current_image (turn 90%Q (turn 90%Q s))
     = current_image (turn 180%Q s).
Proof.
  intros C WF turn. subst turn. cbv beta.
  assert (Q2 : current_image
                 (fst (advanced_rotate (fst (advanced_rotate s (Some 90%Q)))
                         (Some 90%Q)))
               = Some (transpose im ROTATE_180)).
  { rewrite (rotate_current _ (transpose im ROTATE_270)).
    - rewrite quarter_turn, quarter_quarter. reflexivity.
    - rewrite (rotate_current s im _ C), quarter_turn. reflexivity. }
  repeat apply conj.
  - rewrite (rotate_current _ (transpose (transpose im ROTATE_180) ROTATE_270)).
    + rewrite quarter_turn, quarter_quarter, half_half by exact WF.
      reflexivity.
    + rewrite (rotate_current _ (transpose im ROTATE_180) _ Q2), quarter_turn.
      reflexivity.
  - rewrite (rotate_current _ (transpose im ROTATE_180)).
    + rewrite rotate_minus_180, half_half by exact WF. reflexivity.
    + rewrite (rotate_current s im _ C), rotate_minus_180. reflexivity.
  - rewrite (rotate_current _ (transpose im ROTATE_270)).
    + rewrite rotate_minus_270, quarter_back by exact WF. reflexivity.
    + rewrite (rotate_current s im _ C), quarter_turn. reflexivity.
  - rewrite Q2, (rotate_current s im _ C), rotate_minus_180. reflexivity.
Qed.

(** X12: Flip H followed by Flip V, in either order, gives the same image as
    entering 180 in the rotate dialog. *)
Theorem X12_both_flips_are_a_half_turn s im :
  current_image s = Some im ->
  current_image (fst (flip_vertical (fst (flip_horizontal s))))
  = current_image (fst (advanced_rotate s (Some 180%Q)))
  /\ current_image (fst (flip_horizontal (fst (flip_vertical s))))
     = current_image (fst (advanced_rotate s (Some 180%Q))).
Proof.
  intros C. rewrite (rotate_current s im _ C), rotate_minus_180.
  unfold flip_horizontal, flip_vertical. rewrite C.
  cbn [fst current_image with_image].
  rewrite flip_mirror, mirror_flip. split; reflexivity.
Qed.

End Turns.

Section WholeAngles.

Context {pillow : Primitives}.

Lemma py_mod_int n : (py_mod (inject_Z n) 360 == inject_Z (n mod 360))%Q.
Proof.
  assert (E : (inject_Z n - 360 * inject_Z (Qfloor (inject_Z n / 360))
               == inject_Z (n mod 360))%Q).
  { change 360%Q with (inject_Z 360).
    rewrite <- (Zdiv_Qdiv n 360), (Z.mod_eq n 360) by lia.
    unfold Qeq, Qminus, Qplus, Qmult, Qopp, inject_Z. cbn. lia. }
  unfold py_mod. cbv zeta. destruct (_ && _); exact E.
Qed.

Lemma Qeq_bool_int a m c :
  (a == inject_Z m)%Q -> Qeq_bool a (inject_Z c) = (m =? c).
Proof.
  intros E. destruct (Z.eqb_spec m c) as [->|N].
  - apply Qeq_bool_iff, E.
  - destruct (Qeq_bool a (inject_Z c)) eqn:B; [|reflexivity].
    apply Qeq_bool_iff in B. rewrite E in B.
    apply (proj1 (inject_Z_injective _ _)) in B. contradiction.
Qed.

(** [Image.rotate] on a whole number of degrees. *)
Lemma rotate_int im n :
  rotate im (inject_Z n)
  = if n mod 360 =? 0 then im
    else if n mod 360 =? 180 then transpose im ROTATE_180
    else if n mod 360 =? 90 then transpose im ROTATE_90
    else if n mod 360 =? 270 then transpose im ROTATE_270
    else rotate_affine im (py_mod (inject_Z n) 360).
Proof.
  unfold rotate. cbv zeta.
  change 0%Q with (inject_Z 0). change 180%Q with (inject_Z 180).
  change 90%Q with (inject_Z 90). change 270%Q with (inject_Z 270).
  rewrite !(Qeq_bool_int _ (n mod 360)) by apply py_mod_int. reflexivity.
Qed.

(** X13: for a whole number of degrees only the angle modulo 360 counts,
    negative and large angles included: a multiple of 360 leaves the image
    as it is, 90 more than a multiple is the clockwise quarter turn, 180
    more the half turn, 270 more the counter-clockwise quarter turn. *)
Theorem X13_whole_angles_count_modulo_360 s im (d : Z) :
  current_image s = Some im ->
  let out := current_image (fst (advanced_rotate s (Some (inject_Z d)))) in
  (d mod 360 = 0 -> out = Some im)
  /\ (d mod 360 = 90 -> out = Some (transpose im ROTATE_270))
  /\ (d mod 360 = 180 -> out = Some (transpose im ROTATE_180))
  /\ (d mod 360 = 270 -> out = Some (transpose im ROTATE_90)).
Proof.
  intros C out. subst out. rewrite (rotate_current s im _ C).
  change (- inject_Z d)%Q with (inject_Z (- d)). rewrite rotate_int.
  repeat apply conj; intros M.
  - rewrite Z.mod_opp_l_z by lia. reflexivity.
  - rewrite Z.mod_opp_l_nz, M by lia. reflexivity.
  - rewrite Z.mod_opp_l_nz, M by lia. reflexivity.
  - rewrite Z.mod_opp_l_nz, M by lia. reflexivity.
Qed.

End WholeAngles.

Lemma X9_flips_witness :
  current_image Samples.opened = Some Samples.two_pixels
  /\ well_formed Samples.two_pixels = true
  /\ exists out,
       current_image (fst (flip_horizontal Samples.opened)) = Some out
       /\ mode out = mode Samples.two_pixels
       /\ size out = size Samples.two_pixels
       /\ forall x y,
            0 <= x < width Samples.two_pixels ->
            0 <= y < height Samples.two_pixels ->
            pixel_at out x y
            = pixel_at Samples.two_pixels
                (width Samples.two_pixels - 1 - x) y.
Proof.
  split; [reflexivity|]. split; [reflexivity|].
  exact (proj1 (X9_flips_mirror_the_pixels Samples.opened Samples.two_pixels
                  eq_refl eq_refl)).
Defined.

Lemma X10_flipping_twice_witness :
  current_image Samples.opened = Some Samples.two_pixels
  /\ well_formed Samples.two_pixels = true
  /\ current_image
       (fst (flip_horizontal (fst (flip_horizontal Samples.opened))))
     = Some Samples.two_pixels
  /\ current_image (fst (flip_vertical (fst (flip_vertical Samples.opened))))
     = Some Samples.two_pixels.
Proof.
  split; [reflexivity|]. split; [reflexivity|].
  exact (X10_flipping_twice_restores_the_image Samples.opened
           Samples.two_pixels eq_refl eq_refl).
Defined.

Lemma X11_quarter_turns_witness :
  current_image Samples.opened = Some Samples.two_pixels
  /\ well_formed Samples.two_pixels = true
  /\ current_image
       (fst (@advanced_rotate sampled exact
          (fst (@advanced_rotate sampled exact
             (fst (@advanced_rotate sampled exact
                (fst (@advanced_rotate sampled exact Samples.opened
                        (Some 90%Q)))
                (Some 90%Q)))
             (Some 90%Q)))
          (Some 90%Q)))
     = Some Samples.two_pixels.
Proof.
  split; [reflexivity|]. split; [reflexivity|].
  exact (proj1 (@X11_quarter_turns_compose sampled Samples.opened
                  Samples.two_pixels eq_refl eq_refl)).
Defined.

Lemma X12_both_flips_witness :
  current_image Samples.opened = Some Samples.two_pixels
  /\ current_image (fst (flip_vertical (fst (flip_horizontal Samples.opened))))
     = current_image
         (fst (@advanced_rotate sampled exact Samples.opened (Some 180%Q))).
Proof.
  split; [reflexivity|].
  exact (proj1 (@X12_both_flips_are_a_half_turn sampled Samples.opened
                  Samples.two_pixels eq_refl)).
Defined.

Lemma X13_whole_angles_witness :
  current_image Samples.opened = Some Samples.two_pixels
  /\ (-630) mod 360 = 90
  /\ current_image
       (fst (@advanced_rotate sampled exact Samples.opened
               (Some (inject_Z (-630)))))
     = Some (transpose Samples.two_pixels ROTATE_270).
Proof.
  split; [reflexivity|]. split; [reflexivity|].
  destruct (@X13_whole_angles_count_modulo_360 sampled Samples.opened
              Samples.two_pixels (-630) eq_refl) as (_ & Q & _).
  exact (Q eq_refl).
Defined.

(** ** Grayscale and the histogram *)

Section Tones.

Context {pillow : Primitives} {rounding : Rounding}.

Lemma luma_gray l : luma l l l = l.
Proof.
  unfold luma. rewrite Z.shiftr_div_pow2 by lia.
  replace (l * 19595 + l * 38470 + l * 7471 + 32768)
    with (l * 2 ^ 16 + 32768) by (change (2 ^ 16) with 65536; lia).
  rewrite Z.div_add_l by (change (2 ^ 16) with 65536; lia).
  change (32768 / 2 ^ 16) with 0. lia.
Qed.

Lemma luma_bounds r g b :
  0 <= r <= 255 -> 0 <= g <= 255 -> 0 <= b <= 255 ->
  0 <= luma r g b <= 255.
Proof.
  intros R G B. unfold luma. rewrite Z.shiftr_div_pow2 by lia.
  change (2 ^ 16) with 65536. split.
  - apply Z.div_pos; lia.
  - apply Z.lt_succ_r, Z.div_lt_upper_bound; lia.
Qed.

Lemma gray_gray p : gray (gray p) = gray p.
Proof.
  destruct p; unfold gray; cbn [convert_pixel luminance];
    rewrite luma_gray; reflexivity.
Qed.

Lemma grayscale_rows im :
  convert (convert im L) RGB
  = {| mode := RGB; size := size im; rows := map (map gray) (rows im) |}.
Proof.
  unfold convert. cbn [mode size rows]. f_equal.
  rewrite map_map. apply map_ext. intros r. rewrite map_map. reflexivity.
Qed.

Lemma grayscale_current s im :
  current_image s = Some im ->
  current_image (fst (apply_filter s "Grayscale"))
  = Some (convert (convert im L) RGB).
Proof. intros C. unfold apply_filter. rewrite C. reflexivity. Qed.

(** X14: the Grayscale filter is idempotent: applying it a second time
    leaves every pixel, the mode and the size as the first application
    produced them. *)
Theorem X14_grayscale_twice_is_grayscale_once s im :
  current_image s = Some im ->
  current_image
    (fst (apply_filter (fst (apply_filter s "Grayscale")) "Grayscale"))
  = current_image (fst (apply_filter s "Grayscale")).
Proof.
  intros C.
  rewrite (grayscale_current _ (convert (convert im L) RGB))
    by (apply grayscale_current, C).
  rewrite (grayscale_current s im C). f_equal.
  rewrite (grayscale_rows (convert (convert im L) RGB)), (grayscale_rows im).
  cbn [size rows]. f_equal.
  rewrite map_map. apply map_ext. intros r.
  rewrite map_map. apply map_ext, gray_gray.
Qed.

(** X15: the Grayscale filter stays within 8 bits: wherever the input pixel
    has all its bands between 0 and 255, the three equal channels of the
    output pixel hold a value between 0 and 255. *)
Theorem X15_grayscale_stays_within_8_bits s im x y p :
  current_image s = Some im ->
  pixel_at im x y = Some p ->
  eight_bit p = true ->
  exists out l,
    current_image (fst (apply_filter s "Grayscale")) = Some out
    /\ pixel_at out x y = Some (PxRGB l l l)
    /\ l = luminance p
    /\ 0 <= l <= 255.
Proof.
  intros C P E. exists (convert (convert im L) RGB), (luminance p).
  split; [apply grayscale_current, C|].
  split; [rewrite !pixel_at_convert, P; reflexivity|].
  split; [reflexivity|].
  unfold eight_bit in E.
  destruct p as [l|r g b|r g b a]; cbn [bands forallb luminance] in E |- *;
    rewrite ?andb_true_iff in E; repeat match goal with
      | H : _ /\ _ |- _ => destruct H
      | H : (_ <=? _) = true |- _ => apply Z.leb_le in H
      end;
    [lia | apply luma_bounds; lia | apply luma_bounds; lia].
Qed.

Lemma firstn_exact {A} (a b : list A) n :
  length a = n -> firstn n (a ++ b) = a.
Proof.
  intros <-. rewrite firstn_app, Nat.sub_diag, firstn_all, firstn_O.
  apply app_nil_r.
Qed.

Lemma skipn_exact {A} (a b : list A) n m :
  length a = n -> skipn (n + m) (a ++ b) = skipn m b.
Proof.
  intros <-. rewrite skipn_app, skipn_all2 by lia.
  replace (length a + m - length a)%nat with m by lia. reflexivity.
Qed.

Lemma length_counts im k :
  length (map (occurrences im k) (range 256)) = 256%nat.
Proof. rewrite length_map. reflexivity. Qed.

(** The three series of an image with at least three bands. *)
Lemma series_of_bands (a b c rest : list Z) :
  length a = 256%nat -> length b = 256%nat -> length c = 256%nat ->
  (slice (a ++ b ++ c ++ rest) 0 256, slice (a ++ b ++ c ++ rest) 256 512,
   slice (a ++ b ++ c ++ rest) 512 768) = (a, b, c).
Proof.
  intros A B C. unfold slice.
  change (256 - 0)%nat with 256%nat. change (512 - 256)%nat with 256%nat.
  change (768 - 512)%nat with 256%nat.
  change 512%nat with (256 + 256)%nat at 1.
  change (skipn 256 (a ++ b ++ c ++ rest))
    with (skipn (256 + 0) (a ++ b ++ c ++ rest)).
  change (skipn 0 (a ++ b ++ c ++ rest)) with (a ++ b ++ c ++ rest).
  rewrite (skipn_exact a _ 256 256 A), (skipn_exact a _ 256 0 A).
  change (skipn 256 (b ++ c ++ rest)) with (skipn (256 + 0) (b ++ c ++ rest)).
  rewrite (skipn_exact b _ 256 0 B). cbn [skipn].
  rewrite !firstn_exact by assumption. reflexivity.
Qed.

(** X16: the red series of [show_histogram] counts the first band of the
    image, the green and blue series the second and third. On an image of
    mode L, which has the luminance as its only band, the green and the
    blue series are empty; on an RGBA image the alpha band is in none of
    the three. *)
Theorem X16_histogram_series_follow_the_bands im :
  let '(r, g, b) := histogram_series im in
  r = map (occurrences im 0) (range 256)
  /\ match mode im with
     | L => g = [] /\ b = []
     | RGB | RGBA =>
         g = map (occurrences im 1) (range 256)
         /\ b = map (occurrences im 2) (range 256)
     end.
Proof.
  unfold histogram_series, histogram. cbv zeta.
  destruct (mode im); cbn [band_count seq flat_map].
  - unfold slice. change (256 - 0)%nat with 256%nat.
    change (skipn 0 ?l) with l.
    rewrite firstn_exact by apply length_counts.
    rewrite !skipn_all2 by (rewrite length_app, length_counts; cbn; lia).
    repeat split.
  - pose proof (series_of_bands _ _ _ []
                  (length_counts im 0) (length_counts im 1)
                  (length_counts im 2)) as S.
    apply pair_equal_spec in S. destruct S as [S S3].
    apply pair_equal_spec in S. destruct S as [S1 S2].
    rewrite S1, S2, S3. repeat split.
  - pose proof (series_of_bands _ _ _ (map (occurrences im 3) (range 256) ++ [])
                  (length_counts im 0) (length_counts im 1)
                  (length_counts im 2)) as S.
    apply pair_equal_spec in S. destruct S as [S S3].
    apply pair_equal_spec in S. destruct S as [S1 S2].
    rewrite S1, S2, S3. repeat split.
Qed.

Lemma In_grayscale_pixels im p :
  In p (pixels (convert (convert im L) RGB)) -> exists l, p = PxRGB l l l.
Proof.
  rewrite grayscale_rows. unfold pixels. cbn [rows]. intros H.
  apply in_concat in H. destruct H as (r & Hr & Hp).
  apply in_map_iff in Hr. destruct Hr as (r0 & <- & _).
  apply in_map_iff in Hp. destruct Hp as (q & <- & _).
  exists (luminance q). destruct q; reflexivity.
Qed.

(** X17: after the Grayscale filter the histogram shows three identical
    series. *)
Theorem X17_histogram_after_grayscale_has_equal_series s im :
  current_image s = Some im ->
  exists out r,
    current_image (fst (apply_filter s "Grayscale")) = Some out
    /\ histogram_series out = (r, r, r).
Proof.
  intros C. exists (convert (convert im L) RGB).
  exists (map (occurrences (convert (convert im L) RGB) 0) (range 256)).
  split; [apply grayscale_current, C|].
  unfold histogram_series, histogram. cbv zeta.
  change (mode (convert (convert im L) RGB)) with RGB.
  cbn [band_count seq flat_map].
  rewrite series_of_bands by apply length_counts.
  assert (E : forall k v, (k < 3)%nat ->
            occurrences (convert (convert im L) RGB) k v
            = occurrences (convert (convert im L) RGB) 0 v).
  { intros k v K. unfold occurrences. do 2 f_equal.
    apply filter_ext_in. intros p Hp.
    destruct (In_grayscale_pixels im p Hp) as [l ->].
    destruct k as [|[|[|k]]]; [reflexivity | reflexivity | reflexivity | lia]. }
  f_equal; [f_equal|]; apply map_ext; intros v; apply E; lia.
Qed.

End Tones.

Lemma X14_grayscale_twice_witness :
  current_image Samples.veil_opened = Some Samples.veil
  /\ current_image
       (fst (@apply_filter sampled
               (fst (@apply_filter sampled Samples.veil_opened "Grayscale"))
               "Grayscale"))
     = current_image
         (fst (@apply_filter sampled Samples.veil_opened "Grayscale")).
Proof.
  split; [reflexivity|].
  exact (@X14_grayscale_twice_is_grayscale_once sampled Samples.veil_opened
           Samples.veil eq_refl).
Defined.

Lemma X15_grayscale_8_bits_witness :
  current_image Samples.veil_opened = Some Samples.veil
  /\ pixel_at Samples.veil 0 0 = Some (PxRGBA 10 20 30 128)
  /\ eight_bit (PxRGBA 10 20 30 128) = true
  /\ exists out l,
       current_image (fst (@apply_filter sampled Samples.veil_opened
                             "Grayscale")) = Some out
       /\ pixel_at out 0 0 = Some (PxRGB l l l)
       /\ l = luminance (PxRGBA 10 20 30 128)
       /\ 0 <= l <= 255.
Proof.
  split; [reflexivity|]. split; [reflexivity|]. split; [reflexivity|].
  exact (@X15_grayscale_stays_within_8_bits sampled Samples.veil_opened
           Samples.veil 0 0 (PxRGBA 10 20 30 128) eq_refl eq_refl eq_refl).
Defined.

Lemma X17_histogram_after_grayscale_witness :
  current_image Samples.veil_opened = Some Samples.veil
  /\ exists out r,
       current_image (fst (@apply_filter sampled Samples.veil_opened
                             "Grayscale")) = Some out
       /\ histogram_series out = (r, r, r).
Proof.
  split; [reflexivity|].
  exact (@X17_histogram_after_grayscale_has_equal_series sampled
           Samples.veil_opened Samples.veil eq_refl).
Defined.

(** ** Pointer gestures *)

Section Gestures.

Context {pillow : Primitives} {rounding : Rounding}.

Lemma moves_while_drawing moves : forall l path,
  cropping l = false -> drawing l = true ->
  current_path l = path -> path <> [] ->
  let m := fold_left mouseMoveEvent moves l in
  cropping m = false /\ drawing m = true
  /\ drawing_lines m = drawing_lines l
  /\ current_path m = path ++ moves.
Proof.
  induction moves as [|p moves IH]; intros l path Cr Dr Cp Ne; cbn [fold_left].
  - rewrite app_nil_r. auto.
  - assert (E : mouseMoveEvent l p
                = {| cropping := cropping l; drawing := drawing l;
                     start_point := start_point l; end_point := end_point l;
                     crop_rect := crop_rect l;
                     drawing_lines := drawing_lines l;
                     current_path := current_path l ++ [p] |}).
    { unfold mouseMoveEvent. rewrite Cr, Dr, Cp. cbn [andb].
      destruct path; [contradiction|]. reflexivity. }
    destruct (IH (mouseMoveEvent l p) (path ++ [p])) as (A & B & C & D);
      try (rewrite E; cbn; congruence).
    + destruct path; discriminate.
    + cbv zeta. rewrite A, B, C, D, <- app_assoc, E. cbn. auto.
Qed.

(** X18: in drawing mode (and not in crop mode) a gesture made of a press,
    any number of moves and a release adds exactly one path to the captured
    strokes: the press point, the move points in order, the release point.
    The path under construction is empty again and no crop is triggered. *)
Theorem X18_stroke_gesture_is_captured l p0 moves q :
  cropping l = false -> drawing l = true ->
  let pressed := mousePressEvent l p0 in
  let moved := fold_left mouseMoveEvent moves pressed in
  let released := mouseReleaseEvent moved q in
  snd released = None
  /\ drawing_lines (fst released) = drawing_lines l ++ [p0 :: moves ++ [q]]
  /\ current_path (fst released) = [].
Proof.
  intros Cr Dr pressed moved released.
  destruct (moves_while_drawing moves pressed [p0]) as (A & B & C & D);
    try (unfold pressed, mousePressEvent; rewrite Cr, Dr; reflexivity);
    [discriminate|].
  fold moved in A, B, C, D.
  assert (L : drawing_lines pressed = drawing_lines l)
    by (unfold pressed, mousePressEvent; rewrite Cr, Dr; reflexivity).
  subst released. unfold mouseReleaseEvent. rewrite A, B, D. cbn.
  rewrite C, L. auto.
Qed.

Lemma moves_while_cropping moves : forall l p0,
  cropping l = true -> start_point l = Some p0 ->
  point_bool (Some p0) = true ->
  let m := fold_left mouseMoveEvent moves l in
  cropping m = true /\ start_point m = Some p0
  /\ drawing m = drawing l
  /\ drawing_lines m = drawing_lines l
  /\ current_path m = current_path l.
Proof.
  induction moves as [|p moves IH]; intros l p0 Cr St Pb; cbn [fold_left].
  - auto.
  - assert (E : mouseMoveEvent l p
                = {| cropping := cropping l; drawing := drawing l;
                     start_point := start_point l; end_point := Some p;
                     crop_rect := crop_rect l;
                     drawing_lines := drawing_lines l;
                     current_path := current_path l |}).
    { unfold mouseMoveEvent. rewrite Cr, St, Pb. reflexivity. }
    destruct (IH (mouseMoveEvent l p) p0) as (A & B & C & D & F);
      try first [assumption | rewrite E; cbn; assumption].
    cbv zeta. rewrite A, B, C, D, F, E. cbn. auto.
Qed.

(** X19: in crop mode a gesture that starts anywhere but at the label's
    origin hands [crop_image] the normalized rectangle spanned by the press
    point and the release point; the moves in between do not matter, and
    this holds whether or not drawing mode is on as well. Captured strokes
    are left alone. *)
Theorem X19_crop_gesture_spans_press_and_release l p0 moves q :
  cropping l = true ->
  point_bool (Some p0) = true ->
  let pressed := mousePressEvent l p0 in
  let moved := fold_left mouseMoveEvent moves pressed in
  let released := mouseReleaseEvent moved q in
  snd released = Some (normalized (rect_of_points p0 q))
  /\ start_point (fst released) = None
  /\ drawing_lines (fst released) = drawing_lines l
  /\ current_path (fst released) = current_path l.
Proof.
  intros Cr Pb pressed moved released.
  assert (P : pressed
              = {| cropping := cropping l; drawing := drawing l;
                   start_point := Some p0; end_point := Some p0;
                   crop_rect := crop_rect l;
                   drawing_lines := drawing_lines l;
                   current_path := current_path l |})
    by (unfold pressed, mousePressEvent; rewrite Cr; reflexivity).
  destruct (moves_while_cropping moves pressed p0) as (A & B & C & D & F);
    try first [assumption | rewrite P; cbn; assumption | rewrite P; reflexivity].
  fold moved in A, B, C, D, F.
  subst released. unfold mouseReleaseEvent. rewrite A, B, Pb. cbn.
  rewrite D, F, P. auto.
Qed.

End Gestures.

Lemma X18_stroke_gesture_witness :
  cropping (set_drawing true new_label) = false
  /\ drawing (set_drawing true new_label) = true
  /\ drawing_lines
       (fst (mouseReleaseEvent
               (fold_left mouseMoveEvent [mkPoint 470 300]
                  (mousePressEvent (set_drawing true new_label)
                     (mkPoint 460 290)))
               (mkPoint 480 290)))
     = [Samples.stroke].
Proof.
  split; [reflexivity|]. split; [reflexivity|].
  destruct (X18_stroke_gesture_is_captured (set_drawing true new_label)
              (mkPoint 460 290) [mkPoint 470 300] (mkPoint 480 290)
              eq_refl eq_refl) as (_ & Lines & _).
  exact Lines.
Defined.

Lemma X19_crop_gesture_witness :
  cropping (set_cropping true new_label) = true
  /\ point_bool (Some (mkPoint 500 300)) = true
  /\ snd (mouseReleaseEvent
            (fold_left mouseMoveEvent [mkPoint 10 10; mkPoint 700 2]
               (mousePressEvent (set_cropping true new_label)
                  (mkPoint 500 300)))
            (mkPoint 499 350))
     = Some Samples.thin_rect.
Proof.
  split; [reflexivity|]. split; [reflexivity|].
  destruct (X19_crop_gesture_spans_press_and_release
              (set_cropping true new_label) (mkPoint 500 300)
              [mkPoint 10 10; mkPoint 700 2] (mkPoint 499 350)
              eq_refl eq_refl) as (Rect & _).
  exact Rect.
Defined.

Section Strokes.

Context {pillow : Primitives} {rounding : Rounding}.

Lemma label_push_undo s : image_label (push_undo s) = image_label s.
Proof. unfold push_undo. destruct (current_image s); reflexivity. Qed.

Ltac same_lines :=
  cbn [fst image_label with_image with_label with_zoom with_brush
       drawing_lines set_cropping set_drawing clear_drawing_lines];
  rewrite ?label_push_undo; auto.

Lemma lines_crop_image (P : list QPoint -> Prop) s v rect :
  Forall P (drawing_lines (image_label s)) ->
  Forall P (drawing_lines (image_label (fst (crop_image s v rect)))).
Proof.
  intros I. unfold crop_image.
  destruct (pixmap_size v) as [[pw ph]|]; [|exact I].
  destruct (label_size v) as [lw lh].
  destruct (out_of_bounds _ _ _ _ _); [exact I|].
  destruct (current_image s) as [cur|]; [|exact I].
  destruct (size cur) as [img_w img_h].
  destruct ((pw =? 0) || (ph =? 0)); [exact I|].
  destruct (Image_crop cur _); same_lines.
Qed.

Lemma lines_apply_drawing (P : list QPoint -> Prop) s v :
  Forall P (drawing_lines (image_label s)) ->
  Forall P (drawing_lines (image_label (fst (apply_drawing s v)))).
Proof.
  intros I. unfold apply_drawing.
  destruct (current_image s) as [cur|]; [|exact I].
  destruct (negb _); [exact I|].
  destruct (pixmap_size v) as [[pw ph]|]; [|exact I].
  destruct (label_size v) as [lw lh]. destruct (size cur) as [img_w img_h].
  destruct ((pw =? 0) || (ph =? 0)); [exact I|]. same_lines.
Qed.

Lemma lines_step s ev :
  Forall (fun path => (2 <= length path)%nat) (drawing_lines (image_label s)) ->
  Forall (fun path => (2 <= length path)%nat)
         (drawing_lines (image_label (fst (step s ev)))).
Proof.
  intros I.
  destruct ev as [r| | |new_w new_h|angle| | |sliders|filter_name|v|color
                 |bsize| | | | | | |pos|pos|pos v]; cbn [step].
  - destruct r; same_lines.
  - unfold save_image. destruct (current_image s); exact I.
  - unfold crop_mode. destruct (current_image s); same_lines.
  - unfold resize_image.
    destruct (current_image s), new_w, new_h; same_lines.
  - unfold advanced_rotate. destruct (current_image s), angle; same_lines.
  - unfold flip_horizontal. destruct (current_image s); same_lines.
  - unfold flip_vertical. destruct (current_image s); same_lines.
  - unfold adjust_colors. destruct (current_image s); [|exact I].
    destruct sliders as [[[b c] sat]|]; cbn [get_values]; same_lines.
  - unfold apply_filter. destruct (current_image s); [|exact I].
    match goal with |- context [match ?r with Ok _ => _ | Raise _ => _ end] =>
      destruct r end; same_lines.
  - unfold toggle_drawing. destruct (current_image s); [|exact I].
    destruct (negb _); [apply lines_apply_drawing|]; same_lines.
  - unfold choose_brush_color. destruct color; same_lines.
  - unfold set_brush_size. destruct bsize; same_lines.
  - unfold undo. destruct (_ <? _)%nat; [|exact I].
    destruct (pop _) as [[popped rest]|]; [|exact I].
    destruct (top rest); same_lines.
  - unfold redo. destruct (pop _) as [[popped rest]|]; same_lines.
  - exact I.
  - exact I.
  - unfold show_histogram. destruct (current_image s); exact I.
  - exact I.
  - unfold mousePressEvent. destruct (cropping _); [|destruct (drawing _)];
      same_lines.
  - unfold mouseMoveEvent. destruct (_ && _); [|destruct (_ && _)];
      same_lines.
  - destruct (mouseReleaseEvent (image_label s) pos) as [l callback] eqn:R.
    assert (J : Forall (fun path => (2 <= length path)%nat) (drawing_lines l)).
    { unfold mouseReleaseEvent in R.
      destruct (cropping (image_label s) && _).
      - destruct (start_point (image_label s)); injection R as <- _; exact I.
      - destruct (drawing (image_label s) && _) eqn:D;
          injection R as <- _; [|exact I].
        cbn [drawing_lines]. apply Forall_app. split; [exact I|].
        constructor; [|constructor].
        apply andb_true_iff in D. destruct D as [_ D].
        destruct (current_path (image_label s)); [discriminate|].
        cbn. rewrite length_app. cbn. lia. }
    destruct callback as [rect|]; [apply lines_crop_image|]; same_lines.
Qed.

Lemma strokes_have_two_points evs :
  Forall (fun path => (2 <= length path)%nat)
         (drawing_lines (image_label (run init evs))).
Proof.
  unfold run.
  assert (G : forall s,
            Forall (fun path => (2 <= length path)%nat)
                   (drawing_lines (image_label s)) ->
            Forall (fun path => (2 <= length path)%nat)
                   (drawing_lines
                      (image_label
                         (fold_left (fun st ev => fst (step st ev)) evs s)))).
  { induction evs as [|ev evs IH]; intros s I; [exact I|].
    cbn [fold_left]. apply IH, lines_step, I. }
  apply G. constructor.
Qed.

(** X20: whatever the user does from start-up on, every captured stroke
    holds at least two points, so that [apply_drawing] never skips one. *)
Theorem X20_captured_strokes_have_two_points evs path :
  In path (drawing_lines (image_label (run init evs))) ->
  (2 <= length path)%nat.
Proof.
  intros H. pose proof (strokes_have_two_points evs) as I.
  rewrite Forall_forall in I. apply I, H.
Qed.

(** X21: switching drawing on and off again without drawing anything leaves
    the whole editor state as it was. *)
Theorem X21_drawing_on_and_off_changes_nothing s im v v' :
  current_image s = Some im ->
  drawing (image_label s) = false ->
  drawing_lines (image_label s) = [] ->
  toggle_drawing s v
  = (with_label (set_drawing true (image_label s)) s, Silent)
  /\ toggle_drawing (fst (toggle_drawing s v)) v' = (s, Silent).
Proof.
  intros C D Ls. unfold toggle_drawing. rewrite C, D. cbn.
  split; [reflexivity|]. rewrite C. unfold apply_drawing. cbn.
  rewrite C, Ls. cbn.
  destruct s as [cur und red zoom col siz l]. destruct l. cbn in *.
  subst. reflexivity.
Qed.

End Strokes.

Lemma X21_drawing_on_and_off_witness :
  current_image Samples.opened = Some Samples.two_pixels
  /\ drawing (image_label Samples.opened) = false
  /\ drawing_lines (image_label Samples.opened) = []
  /\ @toggle_drawing sampled exact
       (fst (@toggle_drawing sampled exact Samples.opened Samples.window))
       Samples.window
     = (Samples.opened, Silent).
Proof.
  split; [reflexivity|]. split; [reflexivity|]. split; [reflexivity|].
  exact (proj2 (@X21_drawing_on_and_off_changes_nothing sampled exact
                  Samples.opened Samples.two_pixels Samples.window
                  Samples.window eq_refl eq_refl eq_refl)).
Defined.

(** ** Cropping an unzoomed image

    Arithmetic without round-off: on whole pixels and at scale 1 it gives
    what [binary64] gives as long as the numbers have at most 53 bits. *)

Section UnzoomedCrop.

Lemma py_int_eq_int q n : (q == inject_Z n)%Q -> py_int q = n.
Proof.
  unfold Qeq, py_int. cbn. rewrite Z.mul_1_r. intros ->.
  apply Z.quot_mul. discriminate.
Qed.

Lemma integral_offset r label pix o :
  label - pix = 2 * o ->
  (inject_Z r - centering_offset label pix == inject_Z (r - o))%Q.
Proof.
  intros E. unfold centering_offset. no_round_off. rewrite E.
  unfold Qeq, Qminus, Qplus, Qopp, Qdiv, Qmult, Qinv, inject_Z.
  cbn [Qnum Qden Pos.mul]. lia.
Qed.

Lemma scale_one n : 0 < n -> (inject_Z n / inject_Z n == 1)%Q.
Proof.
  intros N. apply Qmult_inv_r. intros Z0.
  pose proof (inject_Z_pos n N) as P. rewrite Z0 in P. discriminate.
Qed.

(** With the pixmap as large as the image and whole-pixel centering
    offsets, [crop_image] crops to the rectangle itself, moved by the
    offsets. *)
Lemma unzoomed_crop s v rect im w h lw lh ox oy :
  pixmap_size v = Some (w, h) -> label_size v = (lw, lh) ->
  current_image s = Some im -> size im = (w, h) ->
  0 < w -> 0 < h ->
  lw - w = 2 * ox -> lh - h = 2 * oy ->
  0 <= rect_x rect - ox -> 0 <= rect_y rect - oy ->
  0 <= rect_width rect -> 0 <= rect_height rect ->
  rect_x rect - ox + rect_width rect <= w ->
  rect_y rect - oy + rect_height rect <= h ->
  crop_image s v rect
  = (let s2 :=
       with_image
         (crop im (rect_x rect - ox, rect_y rect - oy,
                   rect_x rect - ox + rect_width rect,
                   rect_y rect - oy + rect_height rect))
         (push_undo s) in
     with_label (set_cropping false (image_label s2)) s2, Silent).
Proof.
  intros P LS C S W H OX OY X0 Y0 RW RH X1 Y1.
  pose proof (integral_offset (rect_x rect) lw w ox OX) as Ex.
  pose proof (integral_offset (rect_y rect) lh h oy OY) as Ey.
  unfold crop_image. rewrite P, LS, C, S. no_round_off.
  assert (B : out_of_bounds
                (inject_Z (rect_x rect) - centering_offset lw w)
                (inject_Z (rect_y rect) - centering_offset lh h)
                rect w h = false).
  { apply out_of_bounds_false. rewrite Ex, Ey, <- !inject_Z_plus.
    repeat split.
    - apply (proj1 (inject_Z_nonneg _)), X0.
    - apply (proj1 (inject_Z_nonneg _)), Y0.
    - rewrite <- Zle_Qle. exact X1.
    - rewrite <- Zle_Qle. exact Y1. }
  rewrite B.
  destruct (Z.eqb_spec w 0); [lia|]. destruct (Z.eqb_spec h 0); [lia|].
  cbn [orb]. unfold crop_box. no_round_off.
  rewrite (py_int_eq_int _ (rect_x rect - ox)),
          (py_int_eq_int _ (rect_y rect - oy)),
          (py_int_eq_int _ (rect_x rect - ox + rect_width rect)),
          (py_int_eq_int _ (rect_y rect - oy + rect_height rect)).
  - rewrite Image_crop_ok by lia. reflexivity.
  - rewrite Ey, (scale_one h H), Qmult_1_r, <- inject_Z_plus. reflexivity.
  - rewrite Ex, (scale_one w W), Qmult_1_r, <- inject_Z_plus. reflexivity.
  - rewrite Ey, (scale_one h H), Qmult_1_r. reflexivity.
  - rewrite Ex, (scale_one w W), Qmult_1_r. reflexivity.
Qed.

(** X22: on an unzoomed image (pixmap as large as the image) with
    whole-pixel centering offsets, a crop rectangle inside the pixmap is
    accepted and the new image is exactly what lay under it: it is as wide
    and as high as the rectangle, and its pixel [(i, j)] is the pixel that
    was [i] columns and [j] rows from the rectangle's corner. *)
Theorem X22_unzoomed_crop_keeps_the_selected_pixels
  s v rect im w h lw lh ox oy :
  pixmap_size v = Some (w, h) -> label_size v = (lw, lh) ->
  current_image s = Some im -> well_formed im = true -> size im = (w, h) ->
  0 < w -> 0 < h ->
  lw - w = 2 * ox -> lh - h = 2 * oy ->
  0 <= rect_x rect - ox -> 0 <= rect_y rect - oy ->
  0 <= rect_width rect -> 0 <= rect_height rect ->
  rect_x rect - ox + rect_width rect <= w ->
  rect_y rect - oy + rect_height rect <= h ->
  snd (crop_image s v rect) = Silent
  /\ exists out,
       current_image (fst (crop_image s v rect)) = Some out
       /\ size out = (rect_width rect, rect_height rect)
       /\ forall i j,
            0 <= i < rect_width rect -> 0 <= j < rect_height rect ->
            pixel_at out i j
            = pixel_at im (rect_x rect - ox + i) (rect_y rect - oy + j).
Proof.
  intros P LS C WF S W H OX OY X0 Y0 RW RH X1 Y1.
  rewrite (unzoomed_crop s v rect im w h lw lh ox oy) by assumption.
  cbv zeta. cbn [fst snd current_image with_image with_label].
  split; [reflexivity|]. eexists. split; [reflexivity|]. split.
  - rewrite size_crop by lia. f_equal; lia.
  - intros i j Hi Hj. unfold crop. rewrite pixel_at_build by lia.
    destruct (pixel_at_defined im (rect_x rect - ox + i)
                (rect_y rect - oy + j) WF) as [p E];
      unfold width, height; rewrite ?S; cbn [fst snd]; try lia.
    rewrite E. f_equal. apply px_pixel_at, E.
Qed.

(** X23: selecting the whole of an unzoomed image, from its first to its
    last pixel, crops it to itself: the current image is unchanged (and a
    snapshot of it is pushed all the same). *)
Theorem X23_cropping_to_the_whole_image_changes_nothing
  s v rect im w h lw lh :
  pixmap_size v = Some (w, h) -> label_size v = (lw, lh) ->
  current_image s = Some im -> well_formed im = true -> size im = (w, h) ->
  0 < w -> 0 < h ->
  lw - w = 2 * rect_x rect -> lh - h = 2 * rect_y rect ->
  rect_width rect = w -> rect_height rect = h ->
  snd (crop_image s v rect) = Silent
  /\ current_image (fst (crop_image s v rect)) = Some im
  /\ undo_stack (fst (crop_image s v rect)) = undo_stack s ++ [im].
Proof.
  intros P LS C WF S W H OX OY RW RH.
  rewrite (unzoomed_crop s v rect im w h lw lh (rect_x rect) (rect_y rect))
    by (try assumption; lia).
  cbv zeta. cbn [fst snd current_image undo_stack with_image with_label].
  split; [reflexivity|]. split.
  - f_equal. rewrite <- (build_px_id im WF) at 2. unfold crop, width, height.
    rewrite S, RW, RH, !Z.sub_diag. cbn [fst snd].
    replace (Z.max 0 (0 + w - 0)) with w by lia.
    replace (Z.max 0 (0 + h - 0)) with h by lia.
    apply build_ext. intros x y _ _. reflexivity.
  - rewrite push_undo_stack, C. reflexivity.
Qed.

End UnzoomedCrop.

Lemma X22_unzoomed_crop_witness :
  snd (crop_image Samples.crop_pressed Samples.window Samples.inner_rect)
  = Silent
  /\ exists out,
       current_image
         (fst (crop_image Samples.crop_pressed Samples.window
                 Samples.inner_rect)) = Some out
       /\ size out = (10, 10)
       /\ forall i j, 0 <= i < 10 -> 0 <= j < 10 ->
            pixel_at out i j = pixel_at Samples.gradient (11 + i) (11 + j).
Proof.
  exact (X22_unzoomed_crop_keeps_the_selected_pixels Samples.crop_pressed
           Samples.window Samples.inner_rect Samples.gradient
           100 100 1000 660 450 280
           eq_refl eq_refl eq_refl eq_refl eq_refl eq_refl eq_refl
           eq_refl eq_refl
           ltac:(vm_compute; discriminate) ltac:(vm_compute; discriminate)
           ltac:(vm_compute; discriminate) ltac:(vm_compute; discriminate)
           ltac:(vm_compute; discriminate) ltac:(vm_compute; discriminate)).
Defined.

Lemma X23_whole_image_crop_witness :
  snd (crop_image Samples.crop_pressed Samples.window Samples.whole_rect)
  = Silent
  /\ current_image
       (fst (crop_image Samples.crop_pressed Samples.window
               Samples.whole_rect)) = Some Samples.gradient
  /\ undo_stack
       (fst (crop_image Samples.crop_pressed Samples.window
               Samples.whole_rect))
     = undo_stack Samples.crop_pressed ++ [Samples.gradient].
Proof.
  exact (X23_cropping_to_the_whole_image_changes_nothing Samples.crop_pressed
           Samples.window Samples.whole_rect Samples.gradient
           100 100 1000 660
           eq_refl eq_refl eq_refl eq_refl eq_refl eq_refl eq_refl
           eq_refl eq_refl eq_refl eq_refl).
Defined.

(** ** Settings, crop mode and the drawing of strokes *)

Section Persistence.

Context {pillow : Primitives} {rounding : Rounding}.

Lemma settings_push_undo s :
  (brush_color (push_undo s), brush_size (push_undo s),
   zoom_factor (push_undo s))
  = (brush_color s, brush_size s, zoom_factor s).
Proof. unfold push_undo. destruct (current_image s); reflexivity. Qed.

Lemma settings_crop_image s v rect :
  (brush_color (fst (crop_image s v rect)),
   brush_size (fst (crop_image s v rect)),
   zoom_factor (fst (crop_image s v rect)))
  = (brush_color s, brush_size s, zoom_factor s).
Proof.
  unfold crop_image.
  destruct (pixmap_size v) as [[pw ph]|]; [|reflexivity].
  destruct (label_size v) as [lw lh].
  destruct (out_of_bounds _ _ _ _ _); [reflexivity|].
  destruct (current_image s) as [cur|]; [|reflexivity].
  destruct (size cur) as [img_w img_h].
  destruct ((pw =? 0) || (ph =? 0)); [reflexivity|].
  destruct (Image_crop cur _);
    cbn [fst brush_color brush_size zoom_factor with_image with_label];
    apply settings_push_undo.
Qed.

Lemma settings_apply_drawing s v :
  (brush_color (fst (apply_drawing s v)),
   brush_size (fst (apply_drawing s v)),
   zoom_factor (fst (apply_drawing s v)))
  = (brush_color s, brush_size s, zoom_factor s).
Proof.
  unfold apply_drawing.
  destruct (current_image s) as [cur|]; [|reflexivity].
  destruct (negb _); [reflexivity|].
  destruct (pixmap_size v) as [[pw ph]|]; [|reflexivity].
  destruct (label_size v) as [lw lh]. destruct (size cur) as [img_w img_h].
  destruct ((pw =? 0) || (ph =? 0)); reflexivity.
Qed.

Ltac kept :=
  cbn [fst brush_color brush_size zoom_factor with_image with_label
       with_zoom with_brush];
  first [reflexivity | apply settings_push_undo].

Lemma settings_step s ev :
  match ev with
  | EvBrushColor _ | EvBrushSize _ | EvZoomIn | EvZoomOut | EvOpen _ => True
  | _ =>
      (brush_color (fst (step s ev)), brush_size (fst (step s ev)),
       zoom_factor (fst (step s ev)))
      = (brush_color s, brush_size s, zoom_factor s)
  end.
Proof.
  destruct ev as [r| | |new_w new_h|angle| | |sliders|filter_name|v|color
                 |bsize| | | | | | |pos|pos|pos v]; cbn [step]; try exact I.
  - unfold save_image. destruct (current_image s); reflexivity.
  - unfold crop_mode. destruct (current_image s); kept.
  - unfold resize_image. destruct (current_image s), new_w, new_h; kept.
  - unfold advanced_rotate. destruct (current_image s), angle; kept.
  - unfold flip_horizontal. destruct (current_image s); kept.
  - unfold flip_vertical. destruct (current_image s); kept.
  - unfold adjust_colors. destruct (current_image s); [|reflexivity].
    destruct sliders as [[[b c] sat]|]; cbn [get_values]; kept.
  - unfold apply_filter. destruct (current_image s); [|reflexivity].
    match goal with |- context [match ?r with Ok _ => _ | Raise _ => _ end] =>
      destruct r end; kept.
  - unfold toggle_drawing. destruct (current_image s); [|reflexivity].
    destruct (negb _); [rewrite settings_apply_drawing|]; kept.
  - unfold undo. destruct (_ <? _)%nat; [|reflexivity].
    destruct (pop _) as [[popped rest]|]; [|reflexivity].
    destruct (top rest); reflexivity.
  - unfold redo. destruct (pop _) as [[popped rest]|]; reflexivity.
  - unfold show_histogram. destruct (current_image s); reflexivity.
  - reflexivity.
  - reflexivity.
  - reflexivity.
  - destruct (mouseReleaseEvent (image_label s) pos) as [l [rect|]];
      [rewrite settings_crop_image|]; kept.
Qed.

(** X24: the brush colour and the brush size change only through their own
    dialogs, and they survive the opening of another image; the zoom factor
    changes only through Zoom In, Zoom Out and a successful open. *)
Theorem X24_brush_and_zoom_change_only_by_their_own_slots s ev :
  match ev with
  | EvBrushColor _ | EvBrushSize _ => True
  | _ =>
      brush_color (fst (step s ev)) = brush_color s
      /\ brush_size (fst (step s ev)) = brush_size s
  end
  /\ match ev with
     | EvZoomIn | EvZoomOut | EvOpen (Opened _) => True
     | _ => zoom_factor (fst (step s ev)) = zoom_factor s
     end.
Proof.
  pose proof (settings_step s ev) as K.
  destruct ev as [[|message|im'|im' message]| | |new_w new_h|angle| |
                 |sliders|filter_name|v|[c|]|[n|]| | | | | | |pos|pos
                 |pos v];
    try (apply pair_equal_spec in K; destruct K as [K Z];
         apply pair_equal_spec in K; destruct K as [K1 K2]);
    repeat split; auto.
Qed.

End Persistence.

Section CropMode.

(** X25: every crop attempt with a rectangle of non-negative extent, as the
    crop gesture hands them over, on a loaded image shown in a pixmap of
    non-zero size, whether it is accepted or rejected as out of bounds,
    switches crop mode off and leaves drawing mode as it was; in particular
    [Image.crop] does not refuse the box. *)
Theorem X25_crop_attempt_leaves_crop_mode s v rect im pw ph :
  pixmap_size v = Some (pw, ph) ->
  current_image s = Some im ->
  pw <> 0 -> ph <> 0 ->
  0 <= width im -> 0 <= height im ->
  0 <= rect_width rect -> 0 <= rect_height rect ->
  cropping (image_label (fst (crop_image s v rect))) = false
  /\ drawing (image_label (fst (crop_image s v rect)))
     = drawing (image_label s)
  /\ (snd (crop_image s v rect) = Silent
      \/ snd (crop_image s v rect)
         = Warning "Crop" "Selected area is out of image bounds.").
Proof.
  intros P C PW PH IW IH W H. unfold crop_image. rewrite P, C.
  destruct (label_size v) as [lw lh].
  destruct (out_of_bounds _ _ _ _ _) eqn:B; [cbn; auto|].
  unfold width, height in *. destruct (size im) as [img_w img_h].
  cbn [fst snd] in IW, IH.
  destruct (accepted_box _ _ rect img_w img_h pw ph IW IH W H B)
    as (X & Y). unfold crop_box in *.
  apply Z.eqb_neq in PW, PH. rewrite PW, PH. cbn [orb].
  rewrite Image_crop_ok by assumption.
  cbn [orb fst snd image_label with_label with_image set_cropping cropping
       drawing].
  rewrite label_push_undo. auto.
Qed.

End CropMode.

Section RefusedBox.

Context {rounding : Rounding}.


End RefusedBox.

Section EveryStroke.

Context {pillow : Primitives}.



End EveryStroke.

Lemma X20_captured_strokes_witness :
  In Samples.stroke
     (drawing_lines
        (image_label (@run sampled exact init Samples.stroke_events)))
  /\ (2 <= length Samples.stroke)%nat.
Proof.
  assert (H : In Samples.stroke
                (drawing_lines
                   (image_label
                      (@run sampled exact init Samples.stroke_events))))
    by (left; reflexivity).
  split; [exact H|].
  exact (@X20_captured_strokes_have_two_points sampled exact
           Samples.stroke_events Samples.stroke H).
Defined.

Lemma X25_crop_attempt_witness :
  cropping (image_label Samples.crop_pressed) = true
  /\ cropping
       (image_label
          (fst (crop_image Samples.crop_pressed Samples.window
                  Samples.wide_rect))) = false
  /\ cropping
       (image_label
          (fst (crop_image Samples.crop_pressed Samples.window
                  Samples.inner_rect))) = false.
Proof.
  split; [reflexivity|]. split.
  - exact (proj1 (X25_crop_attempt_leaves_crop_mode Samples.crop_pressed
                    Samples.window Samples.wide_rect Samples.gradient 100 100
                    eq_refl eq_refl
                    ltac:(discriminate) ltac:(discriminate)
                    ltac:(vm_compute; discriminate)
                    ltac:(vm_compute; discriminate)
                    ltac:(vm_compute; discriminate)
                    ltac:(vm_compute; discriminate))).
  - exact (proj1 (X25_crop_attempt_leaves_crop_mode Samples.crop_pressed
                    Samples.window Samples.inner_rect Samples.gradient 100 100
                    eq_refl eq_refl
                    ltac:(discriminate) ltac:(discriminate)
                    ltac:(vm_compute; discriminate)
                    ltac:(vm_compute; discriminate)
                    ltac:(vm_compute; discriminate)
                    ltac:(vm_compute; discriminate))).
Defined.



(** ** The buffer handed to the display *)

Section Display.

Lemma flat_map_fixed_length {A B} (f : A -> list B) (n : nat) (l : list A) :
  (forall a, In a l -> length (f a) = n) ->
  length (flat_map f l) = (n * length l)%nat.
Proof.
  induction l as [|a l IH]; intros H; cbn [flat_map length]; [lia|].
  rewrite length_app, (H a (or_introl eq_refl)), IH by (intros; apply H; right;
    assumption). lia.
Qed.

Lemma concat_fixed_length {A} (n : nat) (ll : list (list A)) :
  (forall r, In r ll -> length r = n) ->
  length (concat ll) = (n * length ll)%nat.
Proof.
  induction ll as [|r ll IH]; intros H; cbn [concat length]; [lia|].
  rewrite length_app, (H r (or_introl eq_refl)), IH by (intros; apply H; right;
    assumption). lia.
Qed.

Lemma pixels_convert im m : pixels (convert im m) = map (convert_pixel m) (pixels im).
Proof. unfold pixels, convert. cbn [rows]. symmetry. apply concat_map. Qed.

Lemma pixel_count im :
  well_formed im = true ->
  Z.of_nat (length (pixels im)) = width im * height im.
Proof.
  unfold well_formed. rewrite !andb_true_iff. intros [[[W H] Len] Rows].
  apply Z.leb_le in W. apply Z.eqb_eq in Len.
  rewrite forallb_forall in Rows. unfold pixels.
  rewrite (concat_fixed_length (Z.to_nat (width im))).
  - rewrite Nat2Z.inj_mul, Z2Nat.id, Len by exact W. reflexivity.
  - intros r Hr. specialize (Rows r Hr). unfold row_ok in Rows.
    apply andb_true_iff in Rows. destruct Rows as [Wr _].
    apply Z.eqb_eq in Wr. lia.
Qed.

(** X27: the buffer that [pil2pixmap] hands to [QImage] always fits the
    declared geometry: for a well-formed image of any of the three modes it
    holds exactly [width * height * 4] bytes, four for each pixel. *)
Theorem X27_pixmap_buffer_fits_the_image im :
  well_formed im = true ->
  mode (pil2pixmap im) = RGBA
  /\ size (pil2pixmap im) = size im
  /\ Z.of_nat (length (pil2pixmap_data im)) = width im * height im * 4.
Proof.
  intros WF. split; [reflexivity|]. split; [reflexivity|].
  unfold pil2pixmap_data, pil2pixmap, tobytes.
  rewrite pixels_convert, (flat_map_fixed_length bands 4).
  - rewrite length_map, Nat2Z.inj_mul, (pixel_count im WF). lia.
  - intros p Hp. apply in_map_iff in Hp. destruct Hp as (q & <- & _).
    destruct q; reflexivity.
Qed.

End Display.

Lemma X27_pixmap_buffer_witness :
  well_formed Samples.two_pixels = true
  /\ Z.of_nat (length (pil2pixmap_data Samples.two_pixels)) = 2 * 1 * 4.
Proof.
  split; [reflexivity|].
  exact (proj2 (proj2 (X27_pixmap_buffer_fits_the_image Samples.two_pixels
                         eq_refl))).
Defined.
